(** * Tracker-module sample extractor ([extract.js]): model and properties

    A shallow embedding of [extract.js]: the PCM normaliser
    ([normalizeToPcm16]), the block encoder adapter ([encodeToMp3]), the
    per-file orchestrator ([processFile]) and the command surface ([main]).

    Typed arrays are views on a byte buffer ([ArrayBuffer] = list of bytes,
    byte offset, element count); 16-bit elements are little-endian, as on
    every platform Node.js supports.  JavaScript integers are [Z] with the
    wrap-around of [ToInt32] / [ToInt16] written out.  The external
    collaborators (lamejs, xmp-js, [fs], [path]) are records of operations
    the definitions are parametrised by. *)

From Stdlib Require Import ZArith String Ascii DecimalString ZifyNat.
From Stdlib.Strings Require Import Byte.
From Stdlib Require DecimalNat.
From stdpp Require Import base option list.
From Equations Require Import Equations.

Local Open Scope Z_scope.

(* ===================================================================== *)
(** * JavaScript values used by the program *)
(* ===================================================================== *)

(** Thrown values.  The program itself only throws [Error]; [RangeError]
    comes from the typed-array constructor, the other errors from the
    external collaborators. *)
Inductive JsError : Type :=
| Error (message : string)
| RangeError (message : string)
| TypeError (message : string).

Definition err_message (e : JsError) : string :=
  match e with Error m | RangeError m | TypeError m => m end.

(** Result of a computation that may throw. *)
Inductive Result (A : Type) : Type :=
| Ok (a : A)
| Throw (e : JsError).
Arguments Ok {A} a.
Arguments Throw {A} e.

(** A Number as far as this program needs it: NaN, an infinity, or a
    double that holds an integer, given by that integer.  ([-0] is not
    told apart from [0].) *)
Inductive JSNumber : Type :=
| NaN
| Num (z : Z)
| PosInfinity
| NegInfinity.

(** The Number for a mathematical integer: the nearest double, ties going
    to the even significand of 53 bits, and an infinity from [2^1024] on.
    Below [2^53] every integer is its own double. *)
Definition to_double (z : Z) : JSNumber :=
  let a := Z.abs z in
  if (a <? 2 ^ 53)%Z then Num z
  else
    let e := (Z.log2 a - 52)%Z in
    let q := (a / 2 ^ e)%Z in
    let r := (a mod 2 ^ e)%Z in
    let q := if ((2 ^ (e - 1) <? r) || ((r =? 2 ^ (e - 1)) && Z.odd q))%Z
             then (q + 1)%Z else q in
    let v := (q * 2 ^ e)%Z in
    if (2 ^ 1024 <=? v)%Z
    then (if (z <? 0)%Z then NegInfinity else PosInfinity)
    else Num (Z.sgn z * v).

(** ** Integer conversions *)

Definition ToInt32 (z : Z) : Z := (z + 2 ^ 31) mod 2 ^ 32 - 2 ^ 31.
Definition ToInt16 (z : Z) : Z := (z + 2 ^ 15) mod 2 ^ 16 - 2 ^ 15.
Definition ToInt8 (z : Z) : Z := (z + 2 ^ 7) mod 2 ^ 8 - 2 ^ 7.

(** An element read from a typed array is a Number, or [undefined] (here
    [None]) out of range; [ToInt32 undefined] is 0. *)
Definition ToInt32_val (v : option Z) : Z :=
  match v with Some z => ToInt32 z | None => 0 end.

(** [x & y] on Numbers that hold integers, and [v << n] on an element
    read from a typed array. *)
Definition js_and (x y : Z) : Z := ToInt32 (Z.land (ToInt32 x) (ToInt32 y)).
Definition js_shl (v : option Z) (n : Z) : Z :=
  ToInt32 (Z.shiftl (ToInt32_val v) (Z.land n 31)).

(** ** Bytes *)

Definition byte_to_Z (b : byte) : Z := Z.of_N (Byte.to_N b).
Definition byte_of_Z (z : Z) : byte :=
  default x00 (Byte.of_N (Z.to_N (z mod 256))).

Definition int8_of_byte (b : byte) : Z := ToInt8 (byte_to_Z b).
Definition int16_of_bytes (lo hi : byte) : Z :=
  ToInt16 (byte_to_Z lo + 256 * byte_to_Z hi).

(* ===================================================================== *)
(** * Typed arrays *)
(* ===================================================================== *)

Abbreviation ArrayBuffer := (list byte).

(** [Int8Array]: [length] signed bytes starting at [byteOffset]. *)
Record Int8Array : Type := mkInt8Array {
  i8_buffer : ArrayBuffer;
  i8_byteOffset : nat;
  i8_length : nat
}.

(** [Int16Array]: [length] little-endian signed 16-bit words starting at
    [byteOffset]. *)
Record Int16Array : Type := mkInt16Array {
  i16_buffer : ArrayBuffer;
  i16_byteOffset : nat;
  i16_length : nat
}.

(** The engine only ever builds views that lie inside their buffer. *)
Definition i8_wf (a : Int8Array) : Prop :=
  (i8_byteOffset a + i8_length a <= length (i8_buffer a))%nat.
Definition i16_wf (a : Int16Array) : Prop :=
  (i16_byteOffset a + 2 * i16_length a <= length (i16_buffer a))%nat.

(** [a[j]] *)
Definition i8_get (a : Int8Array) (j : nat) : option Z :=
  if (j <? i8_length a)%nat
  then int8_of_byte <$> i8_buffer a !! (i8_byteOffset a + j)%nat
  else None.

Definition i16_get (a : Int16Array) (j : nat) : option Z :=
  if (j <? i16_length a)%nat then
    match i16_buffer a !! (i16_byteOffset a + 2 * j)%nat,
          i16_buffer a !! (i16_byteOffset a + 2 * j + 1)%nat with
    | Some lo, Some hi => Some (int16_of_bytes lo hi)
    | _, _ => None
    end
  else None.

(** [a[j] = v]: the value is wrapped to 16 bits and stored low byte first;
    an index out of range is ignored. *)
Definition i16_set (a : Int16Array) (j : nat) (v : Z) : Int16Array :=
  if (j <? i16_length a)%nat then
    {| i16_buffer :=
         <[(i16_byteOffset a + 2 * j + 1)%nat := byte_of_Z (v / 256)]>
           (<[(i16_byteOffset a + 2 * j)%nat := byte_of_Z v]> (i16_buffer a));
       i16_byteOffset := i16_byteOffset a;
       i16_length := i16_length a |}
  else a.

(** [new Int16Array(n)]: a fresh zero-filled buffer of [2 n] bytes. *)
Definition new_Int16Array (n : nat) : Int16Array :=
  {| i16_buffer := replicate (2 * n) x00; i16_byteOffset := 0; i16_length := n |}.

(** [new Int16Array(buffer, byteOffset, length)]: the offset must be a
    multiple of the element size and the view must fit in the buffer. *)
Definition new_Int16Array_view (buffer : ArrayBuffer) (byteOffset length : nat)
  : Result Int16Array :=
  if negb (byteOffset mod 2 =? 0)%nat then
    Throw (RangeError "start offset of Int16Array should be a multiple of 2")
  else if (List.length buffer <? byteOffset + 2 * length)%nat then
    Throw (RangeError "Invalid typed array length")
  else Ok {| i16_buffer := buffer; i16_byteOffset := byteOffset;
             i16_length := length |}.

(** The [length] argument [n / 2] is a Number; the constructor applies
    [ToIndex], which truncates a fraction toward zero. *)
Definition ToIndex_half (n : nat) : nat := (n / 2)%nat.

(** [a.subarray(begin, end)] for non-negative indices: a view on the same
    buffer, with both indices clamped to the length. *)
Definition i16_subarray (a : Int16Array) (begin end_ : nat) : Int16Array :=
  let b := Nat.min begin (i16_length a) in
  let e := Nat.min end_ (i16_length a) in
  {| i16_buffer := i16_buffer a;
     i16_byteOffset := (i16_byteOffset a + 2 * b)%nat;
     i16_length := (e - b)%nat |}.

(** The bytes a view of byte elements covers. *)
Definition i8_bytes (a : Int8Array) : list byte :=
  take (i8_length a) (drop (i8_byteOffset a) (i8_buffer a)).

(* ===================================================================== *)
(** * Raw sample records (what xmp-js returns for a sample) *)
(* ===================================================================== *)

Inductive SampleData : Type :=
| DataMissing                       (* undefined or null *)
| DataInt8 (a : Int8Array)
| DataInt16 (a : Int16Array)
| DataOther (length : option Z).    (* any other object, with its [length] *)

Record SampleInfo : Type := mkSampleInfo {
  name : string;
  len : Z;
  flg : Z;
  data : SampleData
}.

(* --- 設定 --- *)
Definition VALID_EXTENSIONS : list string :=
  [".mod"; ".xm"; ".s3m"; ".it"]%string.
Definition XMP_SAMPLE_16BIT : Z := 4.
Definition MP3_KBPS : Z := 128.
Definition MP3_BLOCK_SIZE : nat := 1152.

(* ===================================================================== *)
(** * [normalizeToPcm16] *)
(* ===================================================================== *)

Definition normalizeToPcm16 (sampleInfo : SampleInfo) : Result Int16Array :=
  let sampleData := data sampleInfo in
  let is16bit := negb (js_and (flg sampleInfo) XMP_SAMPLE_16BIT =? 0) in
  if is16bit then
    match sampleData with
    | DataInt16 a => Ok a
    | DataInt8 a =>
        new_Int16Array_view (i8_buffer a) (i8_byteOffset a)
                            (ToIndex_half (i8_length a))
    | _ => Throw (Error "不明な16ビットサンプルデータ形式です。")
    end
  else
    match sampleData with
    | DataInt8 a =>
        let pcm16 := new_Int16Array (i8_length a) in
        Ok (fold_left
              (fun pcm16 j => i16_set pcm16 j (js_shl (i8_get a j) 8))
              (seq 0 (i8_length a)) pcm16)
    | _ => Throw (Error "不明な8ビットサンプルデータ形式です。")
    end.

(** The bit the normaliser looks at. *)
Definition is16bit (sampleInfo : SampleInfo) : bool :=
  negb (js_and (flg sampleInfo) XMP_SAMPLE_16BIT =? 0).

(** The number of frames a record's data holds: its element count for
    signed bytes in 8-bit storage and for 16-bit words, half its byte
    count (rounded down) for signed bytes in 16-bit storage. *)
Definition data_frames (sampleInfo : SampleInfo) : option nat :=
  match data sampleInfo with
  | DataInt16 a => Some (i16_length a)
  | DataInt8 a =>
      Some (if is16bit sampleInfo then (i8_length a / 2)%nat else i8_length a)
  | _ => None
  end.

(* ===================================================================== *)
(** * The [Result] monad *)
(* ===================================================================== *)

#[global] Instance Result_ret : MRet Result := λ A a, Ok a.
#[global] Instance Result_bind : MBind Result := λ A B f m,
  match m with
  | Ok a => f a
  | Throw e => Throw e
  end.

(* ===================================================================== *)
(** * lamejs and [encodeToMp3] *)
(* ===================================================================== *)

(** The block encoder collaborator: [new lamejs.Mp3Encoder(channels,
    samplerate, kbps)], [encodeBuffer(block)] and [flush()].  The encoder
    object's internal state is threaded explicitly; every call may throw. *)
Record Lamejs : Type := mkLamejs {
  Mp3Enc : Type;
  Mp3Encoder : Z → JSNumber → Z → Result Mp3Enc;
  encodeBuffer : Mp3Enc → Int16Array → Result (Mp3Enc * Int8Array);
  flush : Mp3Enc → Result (Mp3Enc * Int8Array)
}.

(** A Node.js [Buffer], by its contents. *)
Abbreviation Buffer := (list byte).

(** [Buffer.from(arrayBuffer, byteOffset, length)] and [Buffer.concat]. *)
Definition Buffer_from (arrayBuffer : ArrayBuffer) (byteOffset length : nat)
  : Buffer := take length (drop byteOffset arrayBuffer).
Definition Buffer_concat (buffers : list Buffer) : Buffer := concat buffers.

(** [if (mp3buf.length > 0) mp3Data.push(mp3buf)] *)
Definition push_nonempty (mp3Data : list Int8Array) (mp3buf : Int8Array)
  : list Int8Array :=
  if (0 <? i8_length mp3buf)%nat then mp3Data ++ [mp3buf] else mp3Data.

(** The bytes a chunk contributes to the output: none when it is empty. *)
Definition chunk_bytes (chunk : Int8Array) : list byte :=
  if (0 <? i8_length chunk)%nat then i8_bytes chunk else [].

Section Encoder.
Context (lamejs : Lamejs).

(** The [for (let k = 0; k < pcm16.length; k += MP3_BLOCK_SIZE)] loop,
    from the value of [k] on. *)
Equations? encodeToMp3_loop (pcm16 : Int16Array) (k : nat)
    (mp3Encoder : Mp3Enc lamejs) (mp3Data : list Int8Array)
  : Result (Mp3Enc lamejs * list Int8Array)
  by wf (i16_length pcm16 - k)%nat lt :=
  encodeToMp3_loop pcm16 k mp3Encoder mp3Data
    with decide (k < i16_length pcm16)%nat := {
    | right _ => Ok (mp3Encoder, mp3Data)
    | left _
        with encodeBuffer lamejs mp3Encoder
               (i16_subarray pcm16 k (k + MP3_BLOCK_SIZE)) := {
        | Throw e => Throw e
        | Ok (mp3Encoder', mp3buf) =>
            encodeToMp3_loop pcm16 (k + MP3_BLOCK_SIZE)%nat mp3Encoder'
                             (push_nonempty mp3Data mp3buf) } }.
Proof. unfold MP3_BLOCK_SIZE. lia. Qed.

Definition encodeToMp3 (pcm16 : Int16Array) (targetSampleRate : JSNumber)
  : Result Buffer :=
  mp3Encoder ← Mp3Encoder lamejs 1 targetSampleRate MP3_KBPS;
  '(mp3Encoder, mp3Data) ← encodeToMp3_loop pcm16 0 mp3Encoder [];
  '(_, mp3buf) ← flush lamejs mp3Encoder;
  let mp3Data := push_nonempty mp3Data mp3buf in
  let buffers :=
    map (λ arr, Buffer_from (i8_buffer arr) (i8_byteOffset arr) (i8_length arr))
        mp3Data in
  Ok (Buffer_concat buffers).

(** ** The adapter as the specification words it

    The PCM is cut into consecutive blocks of [MP3_BLOCK_SIZE] frames
    (the last one possibly shorter); block [b] covers the frames
    [b * 1152 .. min ((b + 1) * 1152, n) - 1]. *)
Definition block_count (n : nat) : nat :=
  ((n + (MP3_BLOCK_SIZE - 1)) / MP3_BLOCK_SIZE)%nat.

Definition pcm_block (pcm : Int16Array) (b : nat) : Int16Array :=
  i16_subarray pcm (b * MP3_BLOCK_SIZE) ((b + 1) * MP3_BLOCK_SIZE).

Definition pcm_blocks (pcm : Int16Array) : list Int16Array :=
  map (pcm_block pcm) (seq 0 (block_count (i16_length pcm))).

(** Feed the blocks in order; collect what the encoder returns, in order. *)
Fixpoint feed_blocks (enc : Mp3Enc lamejs) (blocks : list Int16Array)
  : Result (Mp3Enc lamejs * list Int8Array) :=
  match blocks with
  | [] => Ok (enc, [])
  | block :: rest =>
      '(enc, chunk) ← encodeBuffer lamejs enc block;
      '(enc, chunks) ← feed_blocks enc rest;
      Ok (enc, chunk :: chunks)
  end.

(** Feed every block, flush once, concatenate the non-empty chunks with
    the flush output last. *)
Definition encode_blocks_then_flush (blocks : list Int16Array)
    (targetRate : JSNumber) : Result (list byte) :=
  enc ← Mp3Encoder lamejs 1 targetRate 128;
  '(enc, chunks) ← feed_blocks enc blocks;
  '(_, trailing) ← flush lamejs enc;
  Ok (concat (i8_bytes <$>
                filter (λ c, (0 < i8_length c)%nat) (chunks ++ [trailing]))).
End Encoder.

(* ===================================================================== *)
(** * Strings

    A [string] stands for a JavaScript string whose code units are all
    below 256; each [ascii] is one code unit. *)
(* ===================================================================== *)

Local Open Scope string_scope.

Definition code (c : ascii) : nat := nat_of_ascii c.

(** White space as [trim] and [parseInt] see it (code units below 256):
    TAB, LF, VT, FF, CR, SP, NBSP. *)
Definition is_white_space (c : ascii) : bool :=
  ((9 <=? code c) && (code c <=? 13) || (code c =? 32) || (code c =? 160))%nat.

Definition is_digit (c : ascii) : bool :=
  ((48 <=? code c) && (code c <=? 57))%nat.

(** The class [a-z0-9] under the [i] flag: ASCII letters and digits. *)
Definition is_alnum (c : ascii) : bool :=
  (is_digit c
   || (65 <=? code c) && (code c <=? 90)
   || (97 <=? code c) && (code c <=? 122))%nat.

Fixpoint trimStart (s : string) : string :=
  match s with
  | String c s' => if is_white_space c then trimStart s' else s
  | EmptyString => EmptyString
  end.

Fixpoint trimEnd (s : string) : string :=
  match s with
  | EmptyString => EmptyString
  | String c s' =>
      match trimEnd s' with
      | EmptyString => if is_white_space c then EmptyString else String c EmptyString
      | r => String c r
      end
  end.

(** [s.trim()] *)
Definition trim (s : string) : string := trimEnd (trimStart s).

(** [s.replace(/[^a-z0-9]/gi, '_')] *)
Fixpoint sanitize (s : string) : string :=
  match s with
  | EmptyString => EmptyString
  | String c s' => String (if is_alnum c then c else "_"%char) (sanitize s')
  end.

(** [s.toLowerCase()]: A-Z, and the Latin-1 capitals other than the
    multiplication sign, move up by 32. *)
Definition lower_char (c : ascii) : ascii :=
  if ((65 <=? code c) && (code c <=? 90)
      || (192 <=? code c) && (code c <=? 222) && negb (code c =? 215))%nat
  then ascii_of_nat (code c + 32) else c.

Fixpoint toLowerCase (s : string) : string :=
  match s with
  | EmptyString => EmptyString
  | String c s' => String (lower_char c) (toLowerCase s')
  end.

(** [String(n)] for a non-negative integer. *)
Definition String_of_nat (n : nat) : string :=
  NilZero.string_of_uint (Nat.to_uint n).

(** [s.padStart(2, '0')] *)
Definition padStart2 (s : string) : string :=
  match String.length s with
  | 0%nat => "00"
  | 1%nat => "0" ++ s
  | _ => s
  end.

(** [list.includes(x)] on strings. *)
Definition includes (l : list string) (x : string) : bool :=
  existsb (String.eqb x) l.

(** [x || d] where [x] is a string or [undefined]: the empty string is
    falsy too. *)
Definition or_default (x : option string) (d : string) : string :=
  match x with
  | Some (String c s) => String c s
  | _ => d
  end.

(** [s || d] where [s] is a string. *)
Definition or_else (s d : string) : string := or_default (Some s) d.

(** A string or [undefined] that is truthy. *)
Definition truthy (x : option string) : option string :=
  match x with
  | Some (String c s) => Some (String c s)
  | _ => None
  end.

(** ** [parseInt(s, 10)]

    Leading white space is skipped, then an optional sign, then the
    longest run of decimal digits is read; with no digit the result is
    NaN, otherwise the Number for the signed integer the digits spell
    (rounded to a double when it is large).  Whatever follows the digits
    is ignored. *)
Fixpoint digits_value (s : string) (acc : option Z) : option Z :=
  match s with
  | String c s' =>
      if is_digit c
      then digits_value s' (Some (10 * default 0%Z acc + (Z.of_nat (code c) - 48))%Z)
      else acc
  | EmptyString => acc
  end.

(** The optional sign in front, and the text after it. *)
Definition split_sign (s : string) : Z * string :=
  match s with
  | String "-"%char r => ((-1)%Z, r)
  | String "+"%char r => (1%Z, r)
  | _ => (1%Z, s)
  end.

Definition parseInt10 (s : string) : JSNumber :=
  let s := trimStart s in
  let '(sign, s) := split_sign s in
  match digits_value s None with
  | None => NaN
  | Some v => to_double (sign * v)
  end.

(** Whether a string starts with an integer as [parseInt] reads it: after
    the leading white space and an optional sign comes a decimal digit. *)
Definition starts_with_integer (s : string) : bool :=
  match (split_sign (trimStart s)).2 with
  | String c _ => is_digit c
  | EmptyString => false
  end.

(* ===================================================================== *)
(** * The world the orchestrator acts on *)
(* ===================================================================== *)

(** What [getModuleData()] returns: the module name and the sample list
    (which may be missing); the result itself may be null. *)
Record ModuleData : Type := mkModuleData {
  mod_name : string;
  samples : option (list SampleInfo)
}.

(** The module decoder collaborator: [new Xmp()], [loadModule(arrayBuffer)]
    and [getModuleData()]. *)
Record Xmpjs : Type := mkXmpjs {
  XmpObj : Type;
  Xmp : Result XmpObj;
  loadModule : XmpObj → ArrayBuffer → Result XmpObj;
  getModuleData : XmpObj → Result (option ModuleData)
}.

Record Stats : Type := mkStats { isDirectory : bool; isFile : bool }.

(** A Node.js [Buffer] as [fs.readFileSync] returns it: a view on a
    (possibly pooled) array buffer. *)
Record NodeBuffer : Type := mkNodeBuffer {
  nb_buffer : ArrayBuffer;
  nb_byteOffset : nat;
  nb_byteLength : nat
}.

(** Node's [fs] and [path] modules.  The file system state is abstract; a
    mutating call returns the new state together with its outcome, so a
    failing call may still have changed the state. *)
Record NodeEnv : Type := mkNodeEnv {
  FS : Type;
  existsSync : string → FS → bool;
  statSync : string → FS → Result Stats;
  readdirSync : string → FS → Result (list string);
  readFileSync : string → FS → Result NodeBuffer;
  mkdirSync_recursive : string → FS → FS * Result ();
  writeFileSync : string → Buffer → FS → FS * Result ();
  path_join : string → string → string;
  path_basename : string → string → string;
  path_extname : string → string;
  path_resolve : string → string
}.

(** The lines the program prints, by template; [Log] lines go to
    [console.log], [Err] lines to [console.error]. *)
Inductive ConsoleLine : Type :=
| LogProcessing (filePath : string)            (* [処理中] <filePath> *)
| ErrLoadFailed (filePath message : string)    (* [エラー] <filePath> のロード失敗: <message> *)
| LogNoSamples (filePath : string)             (* [情報] <filePath> にはサンプルが含まれていません。 *)
| ErrSampleFailed (i : nat) (sampleNameRaw message : string)
                                               (* [エラー] サンプル <i> (<name>) のエンコード失敗: <message> *)
| LogDone (extractedCount total : nat) (moduleOutputDir : string)
                                               (* [完了] <n> / <total> 個のサンプルを <dir> に抽出しました。 *)
| ErrUsage                                     (* 使用方法: node extract.js ... *)
| ErrUsageExample                              (* 例: node extract.js ./music ... *)
| ErrInputNotFound (inputPath : string)        (* エラー: 入力パスが見つかりません: <inputPath> *)
| LogStart                                     (* --- サンプル抽出開始 --- *)
| LogInput (resolved : string)                 (* 入力: <path> *)
| LogOutput (resolved : string)                (* 出力: <path> *)
| LogRate (sampleRate : JSNumber)              (* レート: <sampleRate> Hz *)
| LogSeparator                                 (* --- *)
| LogSearching (inputPath : string)            (* [ディレクトリ検索中] <inputPath> *)
| ErrInvalidInput (inputPath : string)         (* エラー: <inputPath> は有効な...ではありません。 *)
| LogFinished.                                 (* --- 処理完了 --- *)

Record World (env : NodeEnv) : Type := mkWorld {
  w_fs : FS env;
  w_console : list ConsoleLine
}.
Arguments mkWorld {env} _ _.
Arguments w_fs {env} _.
Arguments w_console {env} _.

(** Computations that act on the world and may throw. *)
Definition M (env : NodeEnv) (A : Type) : Type :=
  World env → World env * Result A.

#[global] Instance M_ret env : MRet (M env) := λ A a w, (w, Ok a).
#[global] Instance M_bind env : MBind (M env) := λ A B f m w,
  match m w with
  | (w', Ok a) => f a w'
  | (w', Throw e) => (w', Throw e)
  end.

(** [try { body } catch (e) { handler e }] *)
Definition try_catch {env A} (body : M env A) (handler : JsError → M env A)
  : M env A :=
  λ w, match body w with
       | (w', Throw e) => handler e w'
       | r => r
       end.

Definition lift {env A} (r : Result A) : M env A := λ w, (w, r).

Definition console_print {env} (line : ConsoleLine) : M env () :=
  λ w, (mkWorld (w_fs w) (w_console w ++ [line]), Ok ()).

Definition fs_read {env A} (op : FS env → Result A) : M env A :=
  λ w, (w, op (w_fs w)).

Definition fs_write {env} (op : FS env → FS env * Result ()) : M env () :=
  λ w, let '(fs', r) := op (w_fs w) in (mkWorld fs' (w_console w), r).

(* ===================================================================== *)
(** * [toArrayBuffer], [processFile] and [main] *)
(* ===================================================================== *)

(** [buffer.buffer.slice(buffer.byteOffset, buffer.byteOffset + buffer.byteLength)] *)
Definition toArrayBuffer (buffer : NodeBuffer) : ArrayBuffer :=
  take (nb_byteLength buffer) (drop (nb_byteOffset buffer) (nb_buffer buffer)).

(** [`${error}`]: the error's name, then its message when there is one. *)
Definition err_toString (e : JsError) : string :=
  let name := match e with
              | Error _ => "Error"
              | RangeError _ => "RangeError"
              | TypeError _ => "TypeError"
              end in
  match err_message e with
  | EmptyString => name
  | m => name ++ ": " ++ m
  end.

(** [error.message || error], as it is printed. *)
Definition message_or_error (e : JsError) : string :=
  match err_message e with
  | EmptyString => err_toString e
  | m => m
  end.

(** [!sampleInfo.data || sampleInfo.data.length === 0] *)
Definition data_missing_or_empty (d : SampleData) : bool :=
  match d with
  | DataMissing => true
  | DataInt8 a => (i8_length a =? 0)%nat
  | DataInt16 a => (i16_length a =? 0)%nat
  | DataOther (Some l) => (l =? 0)%Z
  | DataOther None => false
  end.

(** How a run of [main] ends. *)
Inductive Completion : Type :=
| Returned                      (* main returns: exit status 0 *)
| Exited (code : Z)             (* process.exit(code) *)
| Uncaught (e : JsError).       (* an exception leaves main: exit status 1 *)

Definition exit_status (c : Completion) : Z :=
  match c with
  | Returned => 0
  | Exited code => code
  | Uncaught _ => 1
  end.

Section Orchestrator.
Context (env : NodeEnv) (xmpjs : Xmpjs) (lamejs : Lamejs).

(** The body of the sample loop for index [i]; the result is the new
    value of [extractedCount]. *)
Definition processFile_sample (moduleOutputDir : string)
    (targetSampleRate : JSNumber) (i : nat) (sampleInfo : SampleInfo)
    (extractedCount : nat) : M env nat :=
  let sampleNameRaw :=
    or_else (trim (name sampleInfo)) ("Sample " ++ String_of_nat (i + 1)) in
  (* ファイル名としてサニタイズ *)
  let sampleName := sanitize sampleNameRaw in
  if (len sampleInfo <=? 0)%Z || data_missing_or_empty (data sampleInfo)
  then mret extractedCount                                   (* continue *)
  else
    try_catch
      ((* 1. PCM正規化 *)
       pcm16 ← lift (normalizeToPcm16 sampleInfo);
       (* 2. MP3エンコード *)
       mp3Buffer ← lift (encodeToMp3 lamejs pcm16 targetSampleRate);
       (* 3. ファイル書き出し *)
       let outputFileName :=
         padStart2 (String_of_nat (i + 1)) ++ "_" ++ sampleName ++ ".mp3" in
       let outputFilePath := path_join env moduleOutputDir outputFileName in
       fs_write (writeFileSync env outputFilePath mp3Buffer);;
       mret (extractedCount + 1)%nat)
      (λ err,
         console_print (ErrSampleFailed i sampleNameRaw (err_message err));;
         mret extractedCount).

(** [for (let i = ...; i < moduleData.samples.length; i++)], from index
    [i] on: [rest] holds the samples at the indices [i], [i + 1], ... *)
Fixpoint processFile_loop (moduleOutputDir : string)
    (targetSampleRate : JSNumber) (i : nat) (rest : list SampleInfo)
    (extractedCount : nat) : M env nat :=
  match rest with
  | [] => mret extractedCount
  | sampleInfo :: rest =>
      extractedCount ← processFile_sample moduleOutputDir targetSampleRate
                                          i sampleInfo extractedCount;
      processFile_loop moduleOutputDir targetSampleRate (i + 1) rest
                       extractedCount
  end.

(** The [try] block of [processFile]: read and decode the file. *)
Definition load_module (filePath : string) : M env (option ModuleData) :=
  fileBuffer ← fs_read (readFileSync env filePath);
  let arrayBuffer := toArrayBuffer fileBuffer in
  xmp ← lift (Xmp xmpjs);
  xmp ← lift (loadModule xmpjs xmp arrayBuffer);
  lift (getModuleData xmpjs xmp).

Definition processFile (filePath outputDir : string)
    (targetSampleRate : JSNumber) : M env () :=
  console_print (LogProcessing filePath);;
  loaded ← try_catch (moduleData ← load_module filePath; mret (Some moduleData))
             (λ error,
                console_print (ErrLoadFailed filePath (message_or_error error));;
                mret None);
  match loaded with
  | None => mret ()                                          (* return *)
  | Some moduleData =>
      match moduleData with
      | Some {| mod_name := moduleData_name;
                samples := Some (sample0 :: more) |} =>
          let moduleData_samples := sample0 :: more in
          (* モジュール名のディレクトリを作成 (例: output/module_name/) *)
          let moduleName :=
            or_else (sanitize (trim moduleData_name))
                    (path_basename env filePath (path_extname env filePath)) in
          let moduleOutputDir := path_join env outputDir moduleName in
          fs_write (mkdirSync_recursive env moduleOutputDir);;
          extractedCount ← processFile_loop moduleOutputDir targetSampleRate
                                            0 moduleData_samples 0;
          console_print (LogDone extractedCount (length moduleData_samples)
                                 moduleOutputDir)
      | _ => console_print (LogNoSamples filePath)           (* return *)
      end
  end.

(** [files.forEach(file => ...)] in the directory branch of [main]. *)
Fixpoint forEach_file (inputPath outputDir : string) (sampleRate : JSNumber)
    (files : list string) : M env () :=
  match files with
  | [] => mret ()
  | file :: files =>
      let filePath := path_join env inputPath file in
      stats ← fs_read (statSync env filePath);
      (if isFile stats
          && includes VALID_EXTENSIONS (toLowerCase (path_extname env file))
       then processFile filePath outputDir sampleRate
       else mret ());;
      forEach_file inputPath outputDir sampleRate files
  end.

(** [process.argv[4] || '22050'] parsed: the rate [main] passes on. *)
Definition main_sampleRate (argv : list string) : JSNumber :=
  parseInt10 (or_default (argv !! 4%nat) "22050").

(** [main], after both argument checks have passed. *)
Definition main_run (inputPath outputDir : string) (sampleRate : JSNumber)
  : M env () :=
  (* 出力ディレクトリ作成 *)
  fs_write (mkdirSync_recursive env outputDir);;
  console_print LogStart;;
  console_print (LogInput (path_resolve env inputPath));;
  console_print (LogOutput (path_resolve env outputDir));;
  console_print (LogRate sampleRate);;
  console_print LogSeparator;;
  stats ← fs_read (statSync env inputPath);
  (if isDirectory stats then
     (* ディレクトリの場合、再帰的に検索 *)
     console_print (LogSearching inputPath);;
     files ← fs_read (readdirSync env inputPath);
     forEach_file inputPath outputDir sampleRate files
   else if isFile stats
           && includes VALID_EXTENSIONS (toLowerCase (path_extname env inputPath))
   then
     (* 単一ファイルの場合 *)
     processFile inputPath outputDir sampleRate
   else
     console_print (ErrInvalidInput inputPath));;
  console_print LogFinished.

Definition main (argv : list string) (w : World env)
  : World env * Completion :=
  let inputPath := argv !! 2%nat in       (* 入力ファイルまたはディレクトリ *)
  let outputDir := argv !! 3%nat in       (* 出力先ディレクトリ *)
  let sampleRate := main_sampleRate argv in
  match truthy inputPath, truthy outputDir with
  | Some inputPath, Some outputDir =>
      if negb (existsSync env inputPath (w_fs w)) then
        (mkWorld (w_fs w) (w_console w ++ [ErrInputNotFound inputPath]),
         Exited 1)
      else
        match main_run inputPath outputDir sampleRate w with
        | (w', Ok _) => (w', Returned)
        | (w', Throw e) => (w', Uncaught e)
        end
  | _, _ =>
      (mkWorld (w_fs w) (w_console w ++ [ErrUsage; ErrUsageExample]),
       Exited 1)
  end.
End Orchestrator.

(** The name the sample at index [i] is reported under ([sampleNameRaw]),
    and the path its artifact is written to ([outputFilePath]). *)
Definition sampleNameRaw (i : nat) (s : SampleInfo) : string :=
  or_else (trim (name s)) ("Sample " ++ String_of_nat (i + 1)).

Definition outputFilePath (env : NodeEnv) (moduleOutputDir : string) (i : nat)
    (s : SampleInfo) : string :=
  path_join env moduleOutputDir
    (padStart2 (String_of_nat (i + 1)) ++ "_" ++ sanitize (sampleNameRaw i s)
     ++ ".mp3").

(** A module's output directory ([moduleOutputDir]). *)
Definition moduleOutputDir (env : NodeEnv) (filePath outputDir : string)
    (moduleData_name : string) : string :=
  path_join env outputDir
    (or_else (sanitize (trim moduleData_name))
             (path_basename env filePath (path_extname env filePath))).

(* ===================================================================== *)
(** * Test doubles and sample inputs

    Deterministic stand-ins for the collaborators, and a few concrete
    records, for running the definitions on concrete inputs. *)
(* ===================================================================== *)

Module Stub.

(** An encoder that answers each block with a three-byte marker (block
    index, block length low byte, block length high byte) and the flush
    with one byte [0xff]; it never throws. *)
Definition marker_lamejs : Lamejs := {|
  Mp3Enc := nat;
  Mp3Encoder := λ _ _ _, Ok 0%nat;
  encodeBuffer := λ calls block,
    Ok (S calls,
        mkInt8Array [byte_of_Z (Z.of_nat calls);
                     byte_of_Z (Z.of_nat (i16_length block));
                     byte_of_Z (Z.of_nat (i16_length block) / 256)] 0 3);
  flush := λ calls, Ok (calls, mkInt8Array [xff] 0 1)
|}.

(** An encoder whose [encodeBuffer] always throws. *)
Definition failing_lamejs : Lamejs := {|
  Mp3Enc := ();
  Mp3Encoder := λ _ _ _, Ok ();
  encodeBuffer := λ _ _, Throw (Error "encode failed");
  flush := λ _, Ok ((), mkInt8Array [] 0 0)
|}.

(** Sample records. *)
Definition bytes3 : Int8Array := mkInt8Array [x80; x00; x7f] 0 3.
Definition sample_8bit : SampleInfo := mkSampleInfo "lead" 3 0 (DataInt8 bytes3).
Definition odd_bytes : Int8Array := mkInt8Array [x01; x02; x03] 0 3.
Definition sample_16bit_odd : SampleInfo :=
  mkSampleInfo "odd" 1 4 (DataInt8 odd_bytes).
Definition sample_16bit_odd_offset : SampleInfo :=
  mkSampleInfo "shifted" 1 4 (DataInt8 (mkInt8Array [x00; x01; x02; x03] 1 3)).
Definition sample_len_5_data_3 : SampleInfo :=
  mkSampleInfo "short" 5 0 (DataInt8 odd_bytes).
Definition sample_words : SampleInfo :=
  mkSampleInfo "words" 2 4 (DataInt16 (mkInt16Array [x34; x12; xff; xff] 0 2)).
(** 8-bit flag, but the data is an array of words: cannot be normalised. *)
Definition sample_unsupported : SampleInfo :=
  mkSampleInfo "bad" 2 0 (DataInt16 (mkInt16Array [x34; x12; xff; xff] 0 2)).
Definition sample_empty : SampleInfo := mkSampleInfo "" 0 0 DataMissing.

(** 2500 frames of silence: two full blocks and one of 196 frames. *)
Definition pcm_2500 : Int16Array := mkInt16Array (replicate 5000 x00) 0 2500.

(** A decoder that knows two one-byte files: [0x01] is a module named
    "demo" with an 8-bit sample and an empty one, [0x02] a module named
    "bad" whose only sample cannot be normalised; anything else is
    corrupt. *)
Definition toy_xmpjs : Xmpjs := {|
  XmpObj := list byte;
  Xmp := Ok [];
  loadModule := λ _ arrayBuffer,
    match arrayBuffer with
    | [x01] | [x02] => Ok arrayBuffer
    | _ => Throw (Error "load failed")
    end;
  getModuleData := λ loaded,
    match loaded with
    | [x01] => Ok (Some (mkModuleData "demo" (Some [sample_8bit; sample_empty])))
    | [x02] => Ok (Some (mkModuleData "bad" (Some [sample_unsupported])))
    | _ => Ok None
    end
|}.

(** An in-memory file system: directories by path, files by path. *)
Record MemFS : Type := mkMemFS {
  mem_dirs : list string;
  mem_files : list (string * list byte)
}.

Fixpoint find_file (p : string) (files : list (string * list byte))
  : option (list byte) :=
  match files with
  | [] => None
  | (q, content) :: files => if String.eqb p q then Some content else find_file p files
  end.

Fixpoint strip_prefix (p s : string) : option string :=
  match p, s with
  | EmptyString, _ => Some s
  | String c p', String d s' => if Ascii.eqb c d then strip_prefix p' s' else None
  | String _ _, EmptyString => None
  end.

(** The text from the last dot on. *)
Fixpoint extname (s : string) : string :=
  match s with
  | EmptyString => EmptyString
  | String c s' =>
      match extname s' with
      | EmptyString => if Ascii.eqb c "." then s else EmptyString
      | e => e
      end
  end.

(** The text after the last slash. *)
Fixpoint last_component (s : string) : string :=
  match s with
  | EmptyString => EmptyString
  | String c s' =>
      if existsb (Ascii.eqb "/") (list_ascii_of_string s') then last_component s'
      else if Ascii.eqb c "/" then s' else s
  end.

Definition basename (p ext : string) : string :=
  let b := last_component p in
  if (String.length ext <? String.length b)%nat
     && String.eqb (substring (String.length b - String.length ext)
                              (String.length ext) b) ext
  then substring 0 (String.length b - String.length ext) b
  else b.

Definition mem_env : NodeEnv := {|
  FS := MemFS;
  existsSync := λ p fs,
    existsb (String.eqb p) (mem_dirs fs) || bool_decide (is_Some (find_file p (mem_files fs)));
  statSync := λ p fs,
    if existsb (String.eqb p) (mem_dirs fs) then Ok (mkStats true false)
    else if bool_decide (is_Some (find_file p (mem_files fs))) then Ok (mkStats false true)
    else Throw (Error "ENOENT");
  readdirSync := λ p fs,
    if existsb (String.eqb p) (mem_dirs fs)
    then Ok (omap (λ f, strip_prefix (p ++ "/") f.1) (mem_files fs))
    else Throw (Error "ENOTDIR");
  readFileSync := λ p fs,
    match find_file p (mem_files fs) with
    | Some content => Ok (mkNodeBuffer content 0 (length content))
    | None => Throw (Error "ENOENT")
    end;
  mkdirSync_recursive := λ p fs,
    (if existsb (String.eqb p) (mem_dirs fs) then fs
     else mkMemFS (mem_dirs fs ++ [p]) (mem_files fs), Ok ());
  writeFileSync := λ p content fs,
    (mkMemFS (mem_dirs fs) (mem_files fs ++ [(p, content)]), Ok ());
  path_join := λ a b, a ++ "/" ++ b;
  path_basename := basename;
  path_extname := extname;
  path_resolve := λ p, "/work/" ++ p
|}.

(** A music directory with a good module, a corrupt file and a module
    whose sample fails; and a stray text file. *)
Definition disk : MemFS :=
  mkMemFS ["music"]
          [("music/a.mod", [x01]); ("music/broken.xm", [x00]);
           ("music/b.it", [x02]); ("notes.txt", [x68; x69])].

Definition world0 : World mem_env := mkWorld (disk : FS mem_env) [].

End Stub.

(** The in-memory file system on a read-only disk: reading works as
    before, creating a directory or writing a file is refused. *)
Module ReadOnly.

Definition env : NodeEnv := {|
  FS := Stub.MemFS;
  existsSync := existsSync Stub.mem_env;
  statSync := statSync Stub.mem_env;
  readdirSync := readdirSync Stub.mem_env;
  readFileSync := readFileSync Stub.mem_env;
  mkdirSync_recursive := λ p fs, (fs, Throw (Error "EROFS: read-only file system"));
  writeFileSync := λ p content fs, (fs, Throw (Error "EROFS: read-only file system"));
  path_join := path_join Stub.mem_env;
  path_basename := path_basename Stub.mem_env;
  path_extname := path_extname Stub.mem_env;
  path_resolve := path_resolve Stub.mem_env
|}.

Definition world0 : World env := mkWorld (Stub.disk : FS env) [].

End ReadOnly.

(* ===================================================================== *)
(** * Properties *)
(* ===================================================================== *)

Local Close Scope string_scope.
Local Open Scope Z_scope.

(** ** Integer conversions and bytes *)

Lemma ToInt32_small z : -2 ^ 31 <= z < 2 ^ 31 → ToInt32 z = z.
Proof. intros H. unfold ToInt32. rewrite Z.mod_small; lia. Qed.

Lemma ToInt16_small z : -2 ^ 15 <= z < 2 ^ 15 → ToInt16 z = z.
Proof. intros H. unfold ToInt16. rewrite Z.mod_small; lia. Qed.

Lemma ToInt8_range z : -128 <= ToInt8 z <= 127.
Proof.
  unfold ToInt8. pose proof (Z.mod_pos_bound (z + 2 ^ 7) (2 ^ 8)). lia.
Qed.

Lemma ToInt16_mod z : ToInt16 (z mod 65536) = ToInt16 z.
Proof.
  unfold ToInt16. change (2 ^ 16) with 65536.
  by rewrite Zplus_mod_idemp_l.
Qed.

Lemma byte_to_of_Z z : byte_to_Z (byte_of_Z z) = z mod 256.
Proof.
  unfold byte_to_Z, byte_of_Z.
  pose proof (Z.mod_pos_bound z 256) as Hb.
  destruct (Byte.of_N (Z.to_N (z mod 256))) as [b|] eqn:E; simpl.
  - apply Byte.to_of_N in E. rewrite E. lia.
  - apply Byte.of_N_None_iff in E. lia.
Qed.

Lemma int16_of_bytes_stored v :
  int16_of_bytes (byte_of_Z v) (byte_of_Z (v / 256)) = ToInt16 v.
Proof.
  unfold int16_of_bytes. rewrite !byte_to_of_Z.
  rewrite <- (ToInt16_mod v). f_equal.
  change 65536 with (256 * 256). rewrite Z.rem_mul_r; lia.
Qed.

Lemma int8_of_byte_range b : -128 <= int8_of_byte b <= 127.
Proof. apply ToInt8_range. Qed.

(** [b << 8] on a signed byte is [b * 256], and survives the store into an
    [Int16Array] element. *)
Lemma js_shl_8_int8 b :
  -128 <= b <= 127 → js_shl (Some b) 8 = b * 256 ∧ ToInt16 (b * 256) = b * 256.
Proof.
  intros Hb. unfold js_shl, ToInt32_val.
  rewrite (ToInt32_small b) by lia.
  change (Z.land 8 31) with 8. rewrite Z.shiftl_mul_pow2 by lia.
  change (2 ^ 8) with 256.
  rewrite ToInt32_small by lia. rewrite ToInt16_small by lia. done.
Qed.

(** ** Reading back what was stored in an [Int16Array] *)

Lemma i16_set_length a j v : i16_length (i16_set a j v) = i16_length a.
Proof. unfold i16_set. by destruct (j <? i16_length a)%nat. Qed.

Lemma i16_set_byteOffset a j v :
  i16_byteOffset (i16_set a j v) = i16_byteOffset a.
Proof. unfold i16_set. by destruct (j <? i16_length a)%nat. Qed.

Lemma i16_set_buffer_length a j v :
  length (i16_buffer (i16_set a j v)) = length (i16_buffer a).
Proof.
  unfold i16_set. destruct (j <? i16_length a)%nat; [|done].
  cbn [i16_buffer]. by rewrite !length_insert.
Qed.

Lemma i16_get_set_eq a j v :
  i16_wf a → (j < i16_length a)%nat →
  i16_get (i16_set a j v) j = Some (ToInt16 v).
Proof.
  unfold i16_wf. intros Hwf Hj. unfold i16_get, i16_set.
  apply Nat.ltb_lt in Hj as Hjb. rewrite Hjb. simpl. rewrite Hjb.
  rewrite list_lookup_insert_ne by lia.
  rewrite list_lookup_insert_eq by lia.
  rewrite list_lookup_insert_eq by (rewrite length_insert; lia).
  by rewrite int16_of_bytes_stored.
Qed.

Lemma i16_get_set_ne a i j v :
  i ≠ j → i16_get (i16_set a j v) i = i16_get a i.
Proof.
  intros Hne. unfold i16_get, i16_set.
  destruct (j <? i16_length a)%nat eqn:Hj; [|done]. simpl.
  destruct (i <? i16_length a)%nat; [|done].
  by rewrite !list_lookup_insert_ne by lia.
Qed.

Lemma i16_set_wf a j v : i16_wf a → i16_wf (i16_set a j v).
Proof.
  unfold i16_wf.
  by rewrite i16_set_length, i16_set_byteOffset, i16_set_buffer_length.
Qed.

Lemma new_Int16Array_wf n : i16_wf (new_Int16Array n).
Proof. unfold i16_wf, new_Int16Array. simpl. rewrite length_replicate. lia. Qed.

(** The widening loop of the 8-bit branch, after its first [m] rounds. *)
Lemma widen_loop_invariant (f : nat → Z) (n m : nat) :
  (m <= n)%nat →
  let pcm16 := fold_left (λ pcm16 j, i16_set pcm16 j (f j)) (seq 0 m)
                         (new_Int16Array n) in
  i16_wf pcm16 ∧ i16_length pcm16 = n ∧
  ∀ j, (j < m)%nat → i16_get pcm16 j = Some (ToInt16 (f j)).
Proof.
  induction m as [|m IH]; intros Hm; cbv zeta.
  - split; [apply new_Int16Array_wf|]. split; [done|]. intros j Hj. lia.
  - rewrite seq_S, fold_left_app. cbn [fold_left Nat.add].
    destruct IH as (Hwf & Hlen & Hget); [lia|].
    split; [by apply i16_set_wf|].
    split; [by rewrite i16_set_length|].
    intros j Hj. destruct (decide (j = m)) as [->|Hne].
    + apply i16_get_set_eq; [done|lia].
    + rewrite i16_get_set_ne by done. apply Hget. lia.
Qed.

Lemma i8_get_wf a j :
  i8_wf a → (j < i8_length a)%nat →
  ∃ b, i8_get a j = Some b ∧ -128 <= b <= 127.
Proof.
  unfold i8_wf, i8_get. intros Hwf Hj.
  apply Nat.ltb_lt in Hj as Hjb. rewrite Hjb.
  destruct (lookup_lt_is_Some_2 (i8_buffer a) (i8_byteOffset a + j)) as [x Hx];
    [lia|].
  rewrite Hx. simpl. eexists. split; [done|]. apply int8_of_byte_range.
Qed.

(** C1. For a record whose 16-bit flag is clear and whose data is a
    signed-byte buffer, [normalizeToPcm16] returns a PCM sequence with one
    frame per input byte, the frame at index [j] being the input byte at
    index [j] times 256, that is, shifted left by 8 bits; this holds for
    every signed byte, -128 and 0 included. *)
Theorem normalize_8bit_frame_is_byte_times_256 (s : SampleInfo) (a : Int8Array) :
  is16bit s = false → data s = DataInt8 a → i8_wf a →
  ∃ pcm, normalizeToPcm16 s = Ok pcm ∧
         i16_length pcm = i8_length a ∧
         ∀ j, (j < i8_length a)%nat →
              ∃ b, i8_get a j = Some b ∧ -128 <= b <= 127 ∧
                   i16_get pcm j = Some (b * 256) ∧ b * 256 = Z.shiftl b 8.
Proof.
  intros Hflag Hdata Hwf. unfold normalizeToPcm16.
  unfold is16bit in Hflag. rewrite Hflag, Hdata. cbv zeta.
  eexists. split; [done|].
  destruct (widen_loop_invariant (λ j, js_shl (i8_get a j) 8)
              (i8_length a) (i8_length a)) as (_ & Hlen & Hget); [lia|].
  split; [done|]. intros j Hj.
  destruct (i8_get_wf a j Hwf Hj) as (b & Hb & Hrange).
  exists b. split; [done|]. split; [done|].
  rewrite (Hget j Hj), Hb.
  destruct (js_shl_8_int8 b Hrange) as [-> ->].
  split; [done|]. rewrite Z.shiftl_mul_pow2 by lia. done.
Qed.

(** ** The block loop of [encodeToMp3] *)

Lemma block_count_lt n b : (b < block_count n)%nat ↔ (b * MP3_BLOCK_SIZE < n)%nat.
Proof.
  unfold block_count, MP3_BLOCK_SIZE.
  zify. Z.to_euclidean_division_equations. lia.
Qed.

Lemma push_nonempty_filter acc chunk :
  push_nonempty acc chunk = acc ++ filter (λ c, (0 < i8_length c)%nat) [chunk].
Proof.
  unfold push_nonempty. rewrite filter_cons, filter_nil.
  destruct (decide (0 < i8_length chunk)%nat) as [H|H].
  - apply Nat.ltb_lt in H. by rewrite H.
  - apply Nat.ltb_nlt in H. rewrite H. by rewrite app_nil_r.
Qed.

Section EncoderFacts.
Context (lamejs : Lamejs).

(** From block [b] on, the loop feeds the remaining [m] blocks in order
    and appends the non-empty chunks to what it has gathered. *)
Lemma encodeToMp3_loop_feeds pcm m : ∀ b enc acc,
  block_count (i16_length pcm) = (b + m)%nat →
  encodeToMp3_loop lamejs pcm (b * MP3_BLOCK_SIZE) enc acc =
    ('(enc', chunks) ← feed_blocks lamejs enc (map (pcm_block pcm) (seq b m));
     Ok (enc', acc ++ filter (λ c, (0 < i8_length c)%nat) chunks)).
Proof.
  induction m as [|m IH]; intros b enc acc Hcount.
  - rewrite encodeToMp3_loop_equation_1.
    destruct (decide (b * MP3_BLOCK_SIZE < i16_length pcm)%nat) as [Hlt|Hge].
    + pose proof (proj2 (block_count_lt _ _) Hlt). lia.
    + simpl. by rewrite app_nil_r.
  - rewrite encodeToMp3_loop_equation_1.
    destruct (decide (b * MP3_BLOCK_SIZE < i16_length pcm)%nat) as [Hlt|Hge].
    2:{ exfalso. apply Hge, block_count_lt. lia. }
    assert (pcm_block pcm b
            = i16_subarray pcm (b * MP3_BLOCK_SIZE)
                           (b * MP3_BLOCK_SIZE + MP3_BLOCK_SIZE)) as Hblock
      by (unfold pcm_block; f_equal; lia).
    cbn [seq map feed_blocks encodeToMp3_loop_unfold_clause_1].
    rewrite Hblock.
    destruct (encodeBuffer lamejs enc _) as [[enc' chunk]|e];
      cbn [mbind Result_bind encodeToMp3_loop_unfold_clause_1_clause_2];
      [|done].
    replace (b * MP3_BLOCK_SIZE + MP3_BLOCK_SIZE)%nat
      with (S b * MP3_BLOCK_SIZE)%nat by lia.
    rewrite IH by lia.
    destruct (feed_blocks lamejs enc' _) as [[enc'' chunks]|e];
      cbn [mbind Result_bind]; [|done].
    rewrite push_nonempty_filter, <- app_assoc, <- filter_app. done.
Qed.
End EncoderFacts.

Lemma i16_get_subarray a begin end_ j :
  (begin <= i16_length a)%nat →
  (j < i16_length (i16_subarray a begin end_))%nat →
  i16_get (i16_subarray a begin end_) j = i16_get a (begin + j).
Proof.
  unfold i16_subarray, i16_get. cbn [i16_length i16_byteOffset i16_buffer].
  intros Hbegin Hj.
  replace (Nat.min begin (i16_length a)) with begin in * by lia.
  apply Nat.ltb_lt in Hj as Hjb. rewrite Hjb.
  assert (begin + j < i16_length a)%nat as Hlt by lia.
  apply Nat.ltb_lt in Hlt as ->.
  replace (i16_byteOffset a + 2 * begin + 2 * j)%nat
    with (i16_byteOffset a + 2 * (begin + j))%nat by lia.
  done.
Qed.

Lemma pcm_block_length pcm b :
  i16_length (pcm_block pcm b)
  = (Nat.min MP3_BLOCK_SIZE (i16_length pcm - b * MP3_BLOCK_SIZE))%nat.
Proof.
  unfold pcm_block, i16_subarray. cbn [i16_length]. unfold MP3_BLOCK_SIZE. lia.
Qed.

(** C2. [encodeToMp3] cuts the PCM into consecutive, non-overlapping blocks
    of exactly 1152 frames (only the last may be shorter, and none is
    empty), block [b] holding the frames [1152 b + j] of the input in
    order; it feeds these blocks to the encoder in input order, then
    flushes exactly once, and returns the concatenation of the non-empty
    chunks the encoder returned, in order, with the flush output last and
    nothing else.  An error thrown by the encoder is passed on. *)
Theorem encodeToMp3_feeds_blocks_then_flushes
    (lamejs : Lamejs) (pcm : Int16Array) (targetRate : JSNumber) :
  let n := i16_length pcm in
  length (pcm_blocks pcm) = block_count n ∧
  (block_count n * MP3_BLOCK_SIZE < n + MP3_BLOCK_SIZE)%nat ∧
  (∀ b, (b < block_count n)%nat →
     pcm_blocks pcm !! b = Some (pcm_block pcm b) ∧
     ((b + 1 < block_count n)%nat → i16_length (pcm_block pcm b) = MP3_BLOCK_SIZE) ∧
     ((b + 1 = block_count n)%nat →
        i16_length (pcm_block pcm b) = (n - b * MP3_BLOCK_SIZE)%nat) ∧
     (0 < i16_length (pcm_block pcm b) <= MP3_BLOCK_SIZE)%nat ∧
     ∀ j, (j < i16_length (pcm_block pcm b))%nat →
          (b * MP3_BLOCK_SIZE + j < n)%nat ∧
          i16_get (pcm_block pcm b) j = i16_get pcm (b * MP3_BLOCK_SIZE + j)) ∧
  encodeToMp3 lamejs pcm targetRate
  = encode_blocks_then_flush lamejs (pcm_blocks pcm) targetRate.
Proof.
  intros n. subst n.
  split; [unfold pcm_blocks; by rewrite length_map, length_seq|].
  split.
  { unfold block_count, MP3_BLOCK_SIZE.
    zify. Z.to_euclidean_division_equations. lia. }
  split.
  - intros b Hb. apply block_count_lt in Hb as Hlt.
    split.
    { unfold pcm_blocks. rewrite list_lookup_fmap, lookup_seq_lt by done. done. }
    rewrite pcm_block_length.
    split; [rewrite block_count_lt; unfold MP3_BLOCK_SIZE in *; lia|].
    split.
    { intros Hlast.
      assert (¬ (b + 1 < block_count (i16_length pcm))%nat) as Hn by lia.
      rewrite block_count_lt in Hn. unfold MP3_BLOCK_SIZE in *. lia. }
    split; [unfold MP3_BLOCK_SIZE in *; lia|].
    intros j Hj. split; [unfold MP3_BLOCK_SIZE in *; lia|].
    unfold pcm_block. apply i16_get_subarray; [lia|].
    fold (pcm_block pcm b). by rewrite pcm_block_length.
  - unfold encodeToMp3, encode_blocks_then_flush.
    change MP3_KBPS with 128.
    destruct (Mp3Encoder lamejs 1 targetRate 128) as [enc|e];
      cbn [mbind Result_bind]; [|done].
    pose proof (encodeToMp3_loop_feeds lamejs pcm
                  (block_count (i16_length pcm)) 0 enc [] eq_refl) as Hloop.
    change (0 * MP3_BLOCK_SIZE)%nat with 0%nat in Hloop. rewrite Hloop.
    fold (pcm_blocks pcm).
    destruct (feed_blocks lamejs enc (pcm_blocks pcm)) as [[enc' chunks]|e];
      cbn [mbind Result_bind]; [|done].
    destruct (flush lamejs enc') as [[enc'' trailing]|e];
      cbn [mbind Result_bind]; [|done].
    rewrite push_nonempty_filter, app_nil_l, <- filter_app.
    done.
Qed.

(** With the marker encoder, 2500 frames give the markers of the blocks
    0, 1, 2 (of 1152, 1152 and 196 frames) and then the flush byte. *)
Lemma encodeToMp3_feeds_blocks_then_flushes_witness :
  length (pcm_blocks Stub.pcm_2500) = 3%nat ∧
  encodeToMp3 Stub.marker_lamejs Stub.pcm_2500 (Num 22050)
  = Ok [x00; x80; x04; x01; x80; x04; x02; xc4; x00; xff].
Proof.
  destruct (encodeToMp3_feeds_blocks_then_flushes Stub.marker_lamejs
              Stub.pcm_2500 (Num 22050)) as (Hlen & _ & _ & Hrun).
  split.
  - rewrite Hlen. vm_compute. reflexivity.
  - rewrite Hrun. vm_compute. reflexivity.
Defined.

(** ** The 16-bit flag *)

Lemma ToInt32_testbit z n : 0 <= n < 32 → Z.testbit (ToInt32 z) n = Z.testbit z n.
Proof.
  intros Hn.
  rewrite <- (Z.mod_pow2_bits_low (ToInt32 z) 32 n) by lia.
  rewrite <- (Z.mod_pow2_bits_low z 32 n) by lia.
  f_equal. unfold ToInt32.
  rewrite Zminus_mod_idemp_l. f_equal. lia.
Qed.

Lemma land_4 x : Z.land x 4 = if Z.testbit x 2 then 4 else 0.
Proof.
  apply Z.bits_inj'. intros n Hn. rewrite Z.land_spec.
  change 4 with (2 ^ 2). rewrite Z.pow2_bits_eqb by lia.
  destruct (Z.eqb_spec 2 n) as [<-|Hne].
  - destruct (Z.testbit x 2); [by rewrite Z.pow2_bits_eqb by lia|].
    by rewrite Z.bits_0.
  - rewrite andb_false_r.
    destruct (Z.testbit x 2); [|by rewrite Z.bits_0].
    rewrite Z.pow2_bits_eqb by lia. symmetry. by apply Z.eqb_neq.
Qed.

(** [(flg & XMP_SAMPLE_16BIT) !== 0] reads bit 2 of the flag field. *)
Lemma is16bit_testbit s : is16bit s = Z.testbit (flg s) 2.
Proof.
  unfold is16bit, js_and, XMP_SAMPLE_16BIT.
  rewrite (ToInt32_small 4) by lia. rewrite land_4.
  rewrite ToInt32_testbit by lia.
  by destruct (Z.testbit (flg s) 2).
Qed.

(** C3 (as stated, refuted).  A record with the 16-bit flag set whose data
    is a signed-byte buffer of three bytes is normalised without error: the
    result is the one frame made of the first two bytes. *)
Lemma normalize_16bit_odd_byte_count_succeeds :
  is16bit Stub.sample_16bit_odd = true ∧
  data Stub.sample_16bit_odd = DataInt8 Stub.odd_bytes ∧
  i8_length Stub.odd_bytes = 3%nat ∧
  normalizeToPcm16 Stub.sample_16bit_odd
  = Ok (mkInt16Array [x01; x02; x03] 0 1) ∧
  ¬ (∀ s a, is16bit s = true → data s = DataInt8 a →
            Nat.Odd (i8_length a) → ∃ e, normalizeToPcm16 s = Throw e).
Proof.
  repeat split; try reflexivity.
  intros H.
  destruct (H Stub.sample_16bit_odd Stub.odd_bytes eq_refl eq_refl) as [e He].
  - exists 1%nat. reflexivity.
  - discriminate He.
Qed.

(** C3 (amended).  For a record with the 16-bit flag set whose data is a
    signed-byte buffer with an odd byte count [n]: when the buffer's byte
    offset is even, [normalizeToPcm16] succeeds and returns the view of
    the [(n - 1) / 2] little-endian byte pairs at that offset, leaving the
    last byte out; when the byte offset is odd it fails with the
    [RangeError] of the [Int16Array] constructor.  The byte count's parity
    never makes it fail. *)
Theorem normalize_16bit_odd_byte_count (s : SampleInfo) (a : Int8Array) :
  is16bit s = true → data s = DataInt8 a → i8_wf a → Nat.Odd (i8_length a) →
  (Nat.Even (i8_byteOffset a) →
     ∃ pcm, normalizeToPcm16 s = Ok pcm ∧
            i16_buffer pcm = i8_buffer a ∧
            i16_byteOffset pcm = i8_byteOffset a ∧
            i16_length pcm = ((i8_length a - 1) / 2)%nat ∧
            ∀ j, (j < i16_length pcm)%nat →
                 ∃ lo hi,
                   i8_buffer a !! (i8_byteOffset a + 2 * j)%nat = Some lo ∧
                   i8_buffer a !! (i8_byteOffset a + 2 * j + 1)%nat = Some hi ∧
                   i16_get pcm j = Some (int16_of_bytes lo hi)) ∧
  (Nat.Odd (i8_byteOffset a) →
     ∃ message, normalizeToPcm16 s = Throw (RangeError message)).
Proof.
  intros Hflag Hdata Hwf [k Hk]. unfold i8_wf in Hwf.
  unfold normalizeToPcm16. unfold is16bit in Hflag. rewrite Hflag, Hdata.
  cbv zeta. unfold new_Int16Array_view, ToIndex_half.
  assert ((i8_length a / 2)%nat = k) as Hhalf
    by (rewrite Hk; zify; Z.to_euclidean_division_equations; lia).
  assert (((i8_length a - 1) / 2)%nat = k) as Hhalf'
    by (rewrite Hk; zify; Z.to_euclidean_division_equations; lia).
  rewrite Hhalf, Hhalf'.
  split.
  - intros [m Hm].
    assert ((i8_byteOffset a mod 2 =? 0)%nat = true) as ->.
    { apply Nat.eqb_eq. rewrite Hm. zify. Z.to_euclidean_division_equations. lia. }
    assert ((length (i8_buffer a) <? i8_byteOffset a + 2 * k)%nat = false) as ->
      by (apply Nat.ltb_ge; lia).
    cbn [negb]. eexists. split; [done|]. cbn [i16_buffer i16_byteOffset i16_length].
    repeat split; try done.
    intros j Hj. unfold i16_get. cbn [i16_buffer i16_byteOffset i16_length].
    apply Nat.ltb_lt in Hj as Hjb. rewrite Hjb.
    destruct (lookup_lt_is_Some_2 (i8_buffer a) (i8_byteOffset a + 2 * j))
      as [lo Hlo]; [lia|].
    destruct (lookup_lt_is_Some_2 (i8_buffer a) (i8_byteOffset a + 2 * j + 1))
      as [hi Hhi]; [lia|].
    exists lo, hi. by rewrite Hlo, Hhi.
  - intros [m Hm].
    assert ((i8_byteOffset a mod 2 =? 0)%nat = false) as ->.
    { apply Nat.eqb_neq. rewrite Hm. zify. Z.to_euclidean_division_equations. lia. }
    cbn [negb]. by eexists.
Qed.

(** Three bytes at offset 0 give one frame; three bytes at offset 1 are
    refused by the constructor. *)
Lemma normalize_16bit_odd_byte_count_witness :
  (∃ pcm, normalizeToPcm16 Stub.sample_16bit_odd = Ok pcm ∧
          i16_buffer pcm = [x01; x02; x03] ∧
          i16_byteOffset pcm = 0%nat ∧
          i16_length pcm = ((3 - 1) / 2)%nat ∧
          ∀ j, (j < i16_length pcm)%nat →
               ∃ lo hi,
                 [x01; x02; x03] !! (0 + 2 * j)%nat = Some lo ∧
                 [x01; x02; x03] !! (0 + 2 * j + 1)%nat = Some hi ∧
                 i16_get pcm j = Some (int16_of_bytes lo hi)) ∧
  (∃ message,
     normalizeToPcm16 Stub.sample_16bit_odd_offset = Throw (RangeError message)).
Proof.
  split.
  - destruct (normalize_16bit_odd_byte_count Stub.sample_16bit_odd
                Stub.odd_bytes) as [Heven _].
    + reflexivity.
    + reflexivity.
    + unfold i8_wf. simpl. lia.
    + exists 1%nat. reflexivity.
    + apply Heven. exists 0%nat. reflexivity.
  - destruct (normalize_16bit_odd_byte_count Stub.sample_16bit_odd_offset
                (mkInt8Array [x00; x01; x02; x03] 1 3)) as [_ Hodd].
    + reflexivity.
    + reflexivity.
    + unfold i8_wf. simpl. lia.
    + exists 1%nat. reflexivity.
    + apply Hodd. exists 0%nat. reflexivity.
Defined.

(** The bytes -128, 0 and 127 become the frames -32768, 0 and 32512. *)
Lemma normalize_8bit_frame_is_byte_times_256_witness :
  ∃ pcm, normalizeToPcm16 Stub.sample_8bit = Ok pcm ∧
         i16_length pcm = 3%nat ∧
         ∀ j, (j < 3)%nat →
              ∃ b, i8_get Stub.bytes3 j = Some b ∧ -128 <= b <= 127 ∧
                   i16_get pcm j = Some (b * 256) ∧ b * 256 = Z.shiftl b 8.
Proof.
  apply (normalize_8bit_frame_is_byte_times_256 Stub.sample_8bit Stub.bytes3).
  - reflexivity.
  - reflexivity.
  - unfold i8_wf. simpl. lia.
Defined.

(** ** Length of the normalised PCM *)

(** C4 (as stated, refuted).  A record that declares five frames but whose
    8-bit data holds three bytes is normalised to three frames. *)
Lemma normalize_length_differs_from_len :
  len Stub.sample_len_5_data_3 = 5 ∧
  ∃ pcm, normalizeToPcm16 Stub.sample_len_5_data_3 = Ok pcm ∧
         i16_length pcm = 3%nat ∧
         Z.of_nat (i16_length pcm) ≠ len Stub.sample_len_5_data_3.
Proof.
  split; [reflexivity|]. eexists. split; [reflexivity|].
  split; [reflexivity|]. discriminate.
Qed.

(** C4 (amended).  When [normalizeToPcm16] succeeds, the length of the
    returned PCM sequence is the number of frames the data buffer holds
    (the element count for 8-bit bytes and for 16-bit words, half the
    byte count, rounded down, for a 16-bit byte buffer); the record's
    [len] field is not consulted, so the length equals [len] exactly when
    the buffer holds [len] frames. *)
Theorem normalize_length_is_data_frames (s : SampleInfo) (pcm : Int16Array) :
  normalizeToPcm16 s = Ok pcm →
  data_frames s = Some (i16_length pcm) ∧
  (Z.of_nat (i16_length pcm) = len s ↔
   ∃ n, data_frames s = Some n ∧ Z.of_nat n = len s).
Proof.
  intros Hnorm.
  assert (data_frames s = Some (i16_length pcm)) as Hframes.
  { unfold normalizeToPcm16 in Hnorm. unfold data_frames.
    fold (is16bit s) in Hnorm. cbv zeta in Hnorm.
    destruct (is16bit s), (data s) as [|a|a|l]; try discriminate.
    - unfold new_Int16Array_view, ToIndex_half in Hnorm.
      destruct (negb _); [discriminate|].
      destruct (_ <? _)%nat; [discriminate|].
      injection Hnorm as <-. done.
    - by injection Hnorm as <-.
    - injection Hnorm as <-.
      destruct (widen_loop_invariant (λ j, js_shl (i8_get a j) 8)
                  (i8_length a) (i8_length a)) as (_ & Hlen & _); [lia|].
      by rewrite Hlen. }
  split; [done|]. rewrite Hframes. split.
  - intros H. by exists (i16_length pcm).
  - intros (n & [= <-] & H). done.
Qed.

(** Three bytes in 16-bit storage hold one frame. *)
Lemma normalize_length_is_data_frames_witness :
  data_frames Stub.sample_16bit_odd = Some 1%nat ∧
  (Z.of_nat 1 = len Stub.sample_16bit_odd ↔
   ∃ n, data_frames Stub.sample_16bit_odd = Some n ∧
        Z.of_nat n = len Stub.sample_16bit_odd).
Proof.
  apply (normalize_length_is_data_frames Stub.sample_16bit_odd
           (mkInt16Array [x01; x02; x03] 0 1)).
  reflexivity.
Defined.

(** ** What the normaliser reads *)

(** C10. The result of [normalizeToPcm16] depends only on the record's
    data and on bit 2 (the 16-bit bit) of its flag field: two records with
    the same data and the same 16-bit bit give the same result, the same
    PCM or the same error, whatever their names, lengths and other flag
    bits. *)
Theorem normalize_reads_only_data_and_16bit_flag (s1 s2 : SampleInfo) :
  data s1 = data s2 →
  Z.testbit (flg s1) 2 = Z.testbit (flg s2) 2 →
  normalizeToPcm16 s1 = normalizeToPcm16 s2.
Proof.
  intros Hdata Hbit. rewrite <- !is16bit_testbit in Hbit.
  unfold normalizeToPcm16. fold (is16bit s1) (is16bit s2).
  by rewrite Hdata, Hbit.
Qed.

(** Same bytes, same 16-bit bit; name, [len] and the low flag bits differ. *)
Lemma normalize_reads_only_data_and_16bit_flag_witness :
  normalizeToPcm16 Stub.sample_8bit
  = normalizeToPcm16 (mkSampleInfo "another name" 77 3 (DataInt8 Stub.bytes3)).
Proof.
  apply (normalize_reads_only_data_and_16bit_flag Stub.sample_8bit
           (mkSampleInfo "another name" 77 3 (DataInt8 Stub.bytes3))).
  - reflexivity.
  - reflexivity.
Defined.

(** ** The command surface *)

Local Open Scope string_scope.

Lemma digits_value_some s : ∀ a, ∃ v, digits_value s (Some a) = Some v.
Proof.
  induction s as [|c s IH]; intros a; cbn [digits_value]; [by eexists|].
  destruct (is_digit c); [apply IH|by eexists].
Qed.

Lemma to_double_not_NaN z : to_double z ≠ NaN.
Proof.
  unfold to_double.
  destruct (Z.abs z <? 2 ^ 53)%Z; [done|]. cbv zeta.
  destruct (2 ^ 1024 <=? _)%Z; [by destruct (z <? 0)%Z|done].
Qed.

Lemma to_double_small z : (Z.abs z < 2 ^ 53)%Z → to_double z = Num z.
Proof. intros H. unfold to_double. apply Z.ltb_lt in H. by rewrite H. Qed.

(** [parseInt] gives NaN exactly for the strings that do not start with an
    integer. *)
Lemma parseInt10_NaN_iff s :
  parseInt10 s = NaN ↔ starts_with_integer s = false.
Proof.
  unfold parseInt10, starts_with_integer.
  destruct (split_sign (trimStart s)) as [sign t]. cbn [snd].
  destruct t as [|c t]; cbn [digits_value]; [done|].
  destruct (is_digit c); [|done].
  destruct (digits_value_some t (10 * default 0%Z None + (Z.of_nat (code c) - 48))%Z)
    as [v ->].
  split; [|done]. intros H. by apply to_double_not_NaN in H.
Qed.

(** C5 (as stated, refuted).  With the non-numeric argument ["abc"] the
    rate handed to the pipeline is NaN, not 22050. *)
Lemma sample_rate_non_numeric_is_NaN :
  main_sampleRate ["node"; "extract.js"; "music"; "out"; "abc"] = NaN ∧
  main_sampleRate ["node"; "extract.js"; "music"; "out"; "abc"] ≠ Num 22050 ∧
  ∃ w, main Stub.mem_env Stub.toy_xmpjs Stub.marker_lamejs
            ["node"; "extract.js"; "music"; "out"; "abc"] Stub.world0
       = (w, Returned) ∧
       LogRate NaN ∈ w_console w.
Proof.
  split; [reflexivity|]. split; [discriminate|].
  eexists. split; [vm_compute; reflexivity|].
  do 3 apply list_elem_of_further. apply list_elem_of_here.
Qed.

(** C5 (amended).  If the [sample_rate] argument is omitted, or is the
    empty string, [main] runs the pipeline with a target sample rate of
    22050.  Any other argument is parsed by [parseInt(.., 10)] and [main]
    runs the pipeline with the result as it is: the rate is NaN exactly
    when the argument does not start with an integer (after leading white
    space and an optional sign), and then the pipeline runs with NaN, no
    default taking its place. *)
Theorem sample_rate_defaults_when_omitted
    (env : NodeEnv) (xmpjs : Xmpjs) (lamejs : Lamejs) (argv : list string) :
  (argv !! 4%nat = None ∨ argv !! 4%nat = Some "" →
     main_sampleRate argv = Num 22050 ∧
     ∀ inputPath outputDir w,
       truthy (argv !! 2%nat) = Some inputPath →
       truthy (argv !! 3%nat) = Some outputDir →
       existsSync env inputPath (w_fs w) = true →
       main env xmpjs lamejs argv w
       = match main_run env xmpjs lamejs inputPath outputDir (Num 22050) w with
         | (w', Ok _) => (w', Returned)
         | (w', Throw e) => (w', Uncaught e)
         end) ∧
  (∀ c arg, argv !! 4%nat = Some (String c arg) →
     main_sampleRate argv = parseInt10 (String c arg) ∧
     (main_sampleRate argv = NaN ↔ starts_with_integer (String c arg) = false) ∧
     ∀ inputPath outputDir w,
       truthy (argv !! 2%nat) = Some inputPath →
       truthy (argv !! 3%nat) = Some outputDir →
       existsSync env inputPath (w_fs w) = true →
       main env xmpjs lamejs argv w
       = match main_run env xmpjs lamejs inputPath outputDir
                        (parseInt10 (String c arg)) w with
         | (w', Ok _) => (w', Returned)
         | (w', Throw e) => (w', Uncaught e)
         end ∧
       (starts_with_integer (String c arg) = false →
        main env xmpjs lamejs argv w
        = match main_run env xmpjs lamejs inputPath outputDir NaN w with
          | (w', Ok _) => (w', Returned)
          | (w', Throw e) => (w', Uncaught e)
          end)).
Proof.
  split.
  - intros Harg.
    assert (main_sampleRate argv = Num 22050) as Hrate
      by (unfold main_sampleRate; destruct Harg as [-> | ->]; reflexivity).
    split; [done|].
    intros inputPath outputDir w Hin Hout Hexists.
    unfold main. rewrite Hin, Hout, Hexists, Hrate. done.
  - intros c arg Harg.
    assert (main_sampleRate argv = parseInt10 (String c arg)) as Hrate
      by (unfold main_sampleRate; by rewrite Harg).
    split; [done|]. split; [rewrite Hrate; apply parseInt10_NaN_iff|].
    intros inputPath outputDir w Hin Hout Hexists.
    assert (main env xmpjs lamejs argv w
            = match main_run env xmpjs lamejs inputPath outputDir
                             (parseInt10 (String c arg)) w with
              | (w', Ok _) => (w', Returned)
              | (w', Throw e) => (w', Uncaught e)
              end) as Hmain
      by (unfold main; rewrite Hin, Hout, Hexists, Hrate; done).
    split; [done|]. intros Hnan. apply parseInt10_NaN_iff in Hnan.
    by rewrite Hmain, Hnan.
Qed.

(** No rate on the command line: the directory run goes through at 22050;
    with ["44100"] it goes through at 44100, with ["abc"] at NaN. *)
Lemma sample_rate_defaults_when_omitted_witness :
  (main_sampleRate ["node"; "extract.js"; "music"; "out"] = Num 22050 ∧
   main Stub.mem_env Stub.toy_xmpjs Stub.marker_lamejs
        ["node"; "extract.js"; "music"; "out"] Stub.world0
   = match main_run Stub.mem_env Stub.toy_xmpjs Stub.marker_lamejs
                    "music" "out" (Num 22050) Stub.world0 with
     | (w', Ok _) => (w', Returned)
     | (w', Throw e) => (w', Uncaught e)
     end) ∧
  main Stub.mem_env Stub.toy_xmpjs Stub.marker_lamejs
       ["node"; "extract.js"; "music"; "out"; "44100"] Stub.world0
  = match main_run Stub.mem_env Stub.toy_xmpjs Stub.marker_lamejs
                   "music" "out" (parseInt10 "44100") Stub.world0 with
    | (w', Ok _) => (w', Returned)
    | (w', Throw e) => (w', Uncaught e)
    end ∧
  parseInt10 "44100" = Num 44100 ∧
  main_sampleRate ["node"; "extract.js"; "music"; "out"; "abc"] = NaN ∧
  main Stub.mem_env Stub.toy_xmpjs Stub.marker_lamejs
       ["node"; "extract.js"; "music"; "out"; "abc"] Stub.world0
  = match main_run Stub.mem_env Stub.toy_xmpjs Stub.marker_lamejs
                   "music" "out" NaN Stub.world0 with
    | (w', Ok _) => (w', Returned)
    | (w', Throw e) => (w', Uncaught e)
    end.
Proof.
  split; [|split; [|split; [reflexivity|]]].
  - destruct (sample_rate_defaults_when_omitted Stub.mem_env Stub.toy_xmpjs
                Stub.marker_lamejs ["node"; "extract.js"; "music"; "out"])
      as [Hdefault _].
    destruct Hdefault as [Hrate Hrun]; [left; reflexivity|].
    split; [exact Hrate|].
    apply (Hrun "music" "out" Stub.world0); reflexivity.
  - destruct (sample_rate_defaults_when_omitted Stub.mem_env Stub.toy_xmpjs
                Stub.marker_lamejs
                ["node"; "extract.js"; "music"; "out"; "44100"])
      as [_ Hgiven].
    destruct (Hgiven "4"%char "4100" eq_refl) as (_ & _ & Hrun).
    destruct (Hrun "music" "out" Stub.world0 eq_refl eq_refl eq_refl)
      as [Hmain _].
    exact Hmain.
  - destruct (sample_rate_defaults_when_omitted Stub.mem_env Stub.toy_xmpjs
                Stub.marker_lamejs
                ["node"; "extract.js"; "music"; "out"; "abc"])
      as [_ Hgiven].
    destruct (Hgiven "a"%char "bc" eq_refl) as (_ & Hnan & Hrun).
    split; [apply Hnan; reflexivity|].
    destruct (Hrun "music" "out" Stub.world0 eq_refl eq_refl eq_refl)
      as [_ Hmain].
    apply Hmain. reflexivity.
Defined.

(** C9 (the code at the failing input).  A missing input path ends the run
    with exit status 1.  A sole input file with an unrecognised extension
    is reported on the error stream, but [main] then prints its closing
    line and returns: the exit status is 0. *)
Theorem invalid_sole_input_exits_with_status_0 :
  (∃ w, main Stub.mem_env Stub.toy_xmpjs Stub.marker_lamejs
             ["node"; "extract.js"; "nothing"; "out"] Stub.world0
        = (w, Exited 1)) ∧
  existsSync Stub.mem_env "notes.txt" (w_fs Stub.world0) = true ∧
  statSync Stub.mem_env "notes.txt" (w_fs Stub.world0) = Ok (mkStats false true) ∧
  includes VALID_EXTENSIONS (toLowerCase (path_extname Stub.mem_env "notes.txt"))
  = false ∧
  ∃ w, main Stub.mem_env Stub.toy_xmpjs Stub.marker_lamejs
            ["node"; "extract.js"; "notes.txt"; "out"] Stub.world0
       = (w, Returned) ∧
       w_console w = [LogStart; LogInput "/work/notes.txt"; LogOutput "/work/out";
                      LogRate (Num 22050); LogSeparator;
                      ErrInvalidInput "notes.txt"; LogFinished] ∧
       exit_status Returned = 0%Z.
Proof.
  split; [eexists; vm_compute; reflexivity|].
  split; [reflexivity|]. split; [reflexivity|]. split; [reflexivity|].
  eexists. split; [vm_compute; reflexivity|]. split; reflexivity.
Qed.

Local Close Scope string_scope.

(** ** The orchestrator *)

(** Unfolds the plumbing of the world monad. *)
Ltac unfold_M :=
  unfold try_catch, lift, console_print, fs_read, fs_write,
         mbind, M_bind, mret, M_ret in *.

Section OrchestratorFacts.
Context (env : NodeEnv) (xmpjs : Xmpjs) (lamejs : Lamejs).

Local Open Scope string_scope.

(** Reading and decoding a file leaves the world as it was. *)
Lemma load_module_world filePath w w' r :
  load_module env xmpjs filePath w = (w', r) → w' = w.
Proof.
  unfold load_module. unfold_M.
  destruct (readFileSync env filePath (w_fs w)); [|by intros [= <- _]].
  destruct (Xmp xmpjs); [|by intros [= <- _]].
  destruct (loadModule xmpjs _ _); [|by intros [= <- _]].
  by intros [= <- _].
Qed.

Lemma skipped_sample dir rate i s cnt w :
  (len s <=? 0)%Z || data_missing_or_empty (data s) = true →
  processFile_sample env lamejs dir rate i s cnt w = (w, Ok cnt).
Proof. intros H. unfold processFile_sample. by rewrite H. Qed.

(** A sample that is not skipped and whose normalisation, encoding or
    writing throws [e]: the error is caught and printed, the count stays. *)
Lemma failed_sample dir rate i s cnt w e fs' :
  (len s <=? 0)%Z || data_missing_or_empty (data s) = false →
  (normalizeToPcm16 s = Throw e ∧ fs' = w_fs w) ∨
  (∃ pcm, normalizeToPcm16 s = Ok pcm ∧
          encodeToMp3 lamejs pcm rate = Throw e ∧ fs' = w_fs w) ∨
  (∃ pcm mp3, normalizeToPcm16 s = Ok pcm ∧
              encodeToMp3 lamejs pcm rate = Ok mp3 ∧
              writeFileSync env (outputFilePath env dir i s) mp3 (w_fs w)
              = (fs', Throw e)) →
  processFile_sample env lamejs dir rate i s cnt w
  = (mkWorld fs' (w_console w
                  ++ [ErrSampleFailed i (sampleNameRaw i s) (err_message e)]),
     Ok cnt).
Proof.
  intros Hskip Hfail. unfold processFile_sample. rewrite Hskip. unfold_M.
  destruct Hfail as [[Hn ->] | [(pcm & Hn & He & ->) | (pcm & mp3 & Hn & He & Hw)]];
    rewrite Hn; [done|rewrite He; done|].
  rewrite He. unfold outputFilePath, sampleNameRaw in Hw.
  by rewrite Hw.
Qed.

Lemma sample_never_throws dir rate i s cnt w :
  ∃ w' cnt', processFile_sample env lamejs dir rate i s cnt w = (w', Ok cnt').
Proof.
  unfold processFile_sample.
  destruct ((len s <=? 0)%Z || data_missing_or_empty (data s)); [by eexists _, _|].
  unfold_M.
  destruct (normalizeToPcm16 s) as [pcm|e]; [|by eexists _, _].
  destruct (encodeToMp3 lamejs pcm rate) as [mp3|e]; [|by eexists _, _].
  destruct (writeFileSync env _ mp3 (w_fs w)) as [fs' [[]|e]]; by eexists _, _.
Qed.

Lemma loop_step dir rate i s rest cnt w w' cnt' :
  processFile_sample env lamejs dir rate i s cnt w = (w', Ok cnt') →
  processFile_loop env lamejs dir rate i (s :: rest) cnt w
  = processFile_loop env lamejs dir rate (i + 1) rest cnt' w'.
Proof.
  intros H. cbn [processFile_loop]. unfold mbind at 1, M_bind. by rewrite H.
Qed.

(** A file that cannot be read or decoded: one error line, nothing else. *)
Lemma failed_load filePath outputDir rate w w1 e :
  load_module env xmpjs filePath
    (mkWorld (w_fs w) (w_console w ++ [LogProcessing filePath])) = (w1, Throw e) →
  processFile env xmpjs lamejs filePath outputDir rate w
  = (mkWorld (w_fs w)
             (w_console w ++ [LogProcessing filePath;
                              ErrLoadFailed filePath (message_or_error e)]),
     Ok ()).
Proof.
  intros Hload. apply load_module_world in Hload as Hw.
  unfold processFile. unfold_M. cbn [w_fs w_console].
  rewrite Hload, Hw. cbn [w_fs w_console].
  by rewrite <- app_assoc.
Qed.

(** C6. A sample whose [len] is at most zero, or whose data is missing
    or empty, is skipped: nothing is written (the file system is
    untouched), the success counter keeps its value, no failure is
    reported (the console is untouched), and the loop goes on with the
    next sample. *)
Theorem empty_sample_is_skipped dir rate i (s : SampleInfo) rest cnt w :
  (len s <= 0)%Z ∨ data s = DataMissing ∨
  (∃ a, data s = DataInt8 a ∧ i8_length a = 0%nat) ∨
  (∃ a, data s = DataInt16 a ∧ i16_length a = 0%nat) ∨
  data s = DataOther (Some 0%Z) →
  processFile_sample env lamejs dir rate i s cnt w = (w, Ok cnt) ∧
  processFile_loop env lamejs dir rate i (s :: rest) cnt w
  = processFile_loop env lamejs dir rate (i + 1) rest cnt w.
Proof.
  intros H.
  assert ((len s <=? 0)%Z || data_missing_or_empty (data s) = true) as Hskip.
  { destruct H as [H | [H | [(a & H & Ha) | [(a & H & Ha) | H]]]].
    - apply Z.leb_le in H. by rewrite H.
    - rewrite H. apply orb_true_r.
    - rewrite H. cbn. rewrite Ha. apply orb_true_r.
    - rewrite H. cbn. rewrite Ha. apply orb_true_r.
    - rewrite H. apply orb_true_r. }
  pose proof (skipped_sample dir rate i s cnt w Hskip) as Hsample.
  split; [done|]. by apply loop_step.
Qed.

(** C7. A failure raised by the normalisation, the encoding or the
    writing of sample [i] does not abort anything: the error is printed
    with the sample's index and name, the counter keeps its value, and
    the loop goes on with sample [i + 1]; indeed no sample's processing
    ever throws.  Likewise a file that cannot be read or decoded gets
    one error line, [processFile] returns normally, and the directory
    loop goes on with the remaining files. *)
Theorem failures_are_logged_and_skipped :
  (∀ dir rate i s rest cnt w e fs',
     (len s <=? 0)%Z || data_missing_or_empty (data s) = false →
     (normalizeToPcm16 s = Throw e ∧ fs' = w_fs w) ∨
     (∃ pcm, normalizeToPcm16 s = Ok pcm ∧
             encodeToMp3 lamejs pcm rate = Throw e ∧ fs' = w_fs w) ∨
     (∃ pcm mp3, normalizeToPcm16 s = Ok pcm ∧
                 encodeToMp3 lamejs pcm rate = Ok mp3 ∧
                 writeFileSync env (outputFilePath env dir i s) mp3 (w_fs w)
                 = (fs', Throw e)) →
     let w' := mkWorld fs'
                 (w_console w
                  ++ [ErrSampleFailed i (sampleNameRaw i s) (err_message e)]) in
     processFile_sample env lamejs dir rate i s cnt w = (w', Ok cnt) ∧
     processFile_loop env lamejs dir rate i (s :: rest) cnt w
     = processFile_loop env lamejs dir rate (i + 1) rest cnt w') ∧
  (∀ dir rate i s cnt w,
     ∃ w' cnt', processFile_sample env lamejs dir rate i s cnt w = (w', Ok cnt')) ∧
  (∀ inputPath outputDir rate file files w w1 e,
     load_module env xmpjs (path_join env inputPath file)
       (mkWorld (w_fs w)
                (w_console w ++ [LogProcessing (path_join env inputPath file)]))
     = (w1, Throw e) →
     let w' := mkWorld (w_fs w)
                 (w_console w
                  ++ [LogProcessing (path_join env inputPath file);
                      ErrLoadFailed (path_join env inputPath file)
                                    (message_or_error e)]) in
     processFile env xmpjs lamejs (path_join env inputPath file) outputDir rate w
     = (w', Ok ()) ∧
     ∀ stats,
       statSync env (path_join env inputPath file) (w_fs w) = Ok stats →
       isFile stats
       && includes VALID_EXTENSIONS (toLowerCase (path_extname env file)) = true →
       forEach_file env xmpjs lamejs inputPath outputDir rate (file :: files) w
       = forEach_file env xmpjs lamejs inputPath outputDir rate files w').
Proof.
  split; [|split].
  - intros dir rate i s rest cnt w e fs' Hskip Hfail w'.
    pose proof (failed_sample dir rate i s cnt w e fs' Hskip Hfail) as Hsample.
    split; [done|]. by apply loop_step.
  - apply sample_never_throws.
  - intros inputPath outputDir rate file files w w1 e Hload w'.
    pose proof (failed_load _ outputDir rate w w1 e Hload) as Hfile.
    split; [done|]. intros stats Hstat Hvalid.
    cbn [forEach_file]. cbv zeta.
    unfold mbind at 1, M_bind. unfold fs_read at 1. rewrite Hstat, Hvalid.
    unfold mbind at 1, M_bind. by rewrite Hfile.
Qed.
End OrchestratorFacts.

(** ** What a failure leaves behind *)

Section PartialState.
Context (env : NodeEnv) (xmpjs : Xmpjs) (lamejs : Lamejs).

Lemma loop_never_throws dir rate rest : ∀ i cnt w,
  ∃ w' cnt', processFile_loop env lamejs dir rate i rest cnt w = (w', Ok cnt').
Proof.
  induction rest as [|s rest IH]; intros i cnt w.
  - by eexists _, _.
  - destruct (sample_never_throws env lamejs dir rate i s cnt w)
      as (w1 & cnt1 & Hs).
    rewrite (loop_step env lamejs dir rate i s rest cnt w w1 cnt1 Hs).
    apply IH.
Qed.

(** C8. No failure leaves partial state behind.  A sample whose
    normalisation or encoding fails produces no output file: the file
    system after it is the file system before it (no write is attempted).
    A file whose processing fails, because it cannot be read or decoded,
    produces no output subdirectory: [processFile] returns with the file
    system as it was, having created nothing (the same holds for a file
    that decodes to no samples). *)
Theorem failure_leaves_no_partial_state :
  (∀ dir rate i s cnt w e,
     (len s <=? 0)%Z || data_missing_or_empty (data s) = false →
     normalizeToPcm16 s = Throw e ∨
     (∃ pcm, normalizeToPcm16 s = Ok pcm ∧ encodeToMp3 lamejs pcm rate = Throw e) →
     ∃ w', processFile_sample env lamejs dir rate i s cnt w = (w', Ok cnt) ∧
           w_fs w' = w_fs w) ∧
  (∀ filePath outputDir rate w w1 r,
     load_module env xmpjs filePath
       (mkWorld (w_fs w) (w_console w ++ [LogProcessing filePath])) = (w1, r) →
     (∃ e, r = Throw e) ∨ r = Ok None ∨
     (∃ moduleData, r = Ok (Some moduleData) ∧
                    (samples moduleData = None ∨ samples moduleData = Some [])) →
     ∃ w', processFile env xmpjs lamejs filePath outputDir rate w = (w', Ok ()) ∧
           w_fs w' = w_fs w).
Proof.
  split.
  - intros dir rate i s cnt w e Hskip Hfail.
    eexists. split.
    + apply (failed_sample env lamejs dir rate i s cnt w e (w_fs w) Hskip).
      destruct Hfail as [Hn | (pcm & Hn & He)]; [by left|].
      right. left. by exists pcm.
    + done.
  - intros filePath outputDir rate w w1 r Hload Hcase.
    apply load_module_world in Hload as Hw. subst w1.
    destruct Hcase as [[e ->] | [-> | (moduleData & -> & Hnone)]].
    + rewrite (failed_load env xmpjs lamejs filePath outputDir rate w _ e Hload).
      by eexists.
    + unfold processFile. unfold_M. cbn [w_fs w_console]. rewrite Hload.
      by eexists.
    + unfold processFile. unfold_M. cbn [w_fs w_console]. rewrite Hload.
      destruct moduleData as [nm smp]. cbn [samples] in Hnone.
      destruct Hnone as [-> | ->]; by eexists.
Qed.

(** X21. For a decoded module with at least one sample record the output
    subdirectory is created first, before any sample is processed: the
    sample loop starts from the file system that [mkdirSync] returned, and
    [processFile] ends with the summary line, whatever became of the
    samples.  So the subdirectory is there even when nothing was
    extracted. *)
Theorem module_directory_is_created_before_samples
    (filePath outputDir : string) (rate : JSNumber) (w w1 : World env)
    (moduleData_name : string) (sample0 : SampleInfo) (more : list SampleInfo)
    (fs1 : FS env) :
  load_module env xmpjs filePath
    (mkWorld (w_fs w) (w_console w ++ [LogProcessing filePath]))
  = (w1, Ok (Some (mkModuleData moduleData_name (Some (sample0 :: more))))) →
  let dir := moduleOutputDir env filePath outputDir moduleData_name in
  mkdirSync_recursive env dir (w_fs w) = (fs1, Ok ()) →
  ∃ w2 extractedCount,
    processFile_loop env lamejs dir rate 0 (sample0 :: more) 0
      (mkWorld fs1 (w_console w ++ [LogProcessing filePath]))
    = (w2, Ok extractedCount) ∧
    processFile env xmpjs lamejs filePath outputDir rate w
    = (mkWorld (w_fs w2)
         (w_console w2 ++ [LogDone extractedCount (length (sample0 :: more)) dir]),
       Ok ()).
Proof.
  intros Hload dir Hmkdir.
  apply load_module_world in Hload as Hw. subst w1.
  destruct (loop_never_throws dir rate (sample0 :: more) 0%nat 0%nat
              (mkWorld fs1 (w_console w ++ [LogProcessing filePath])))
    as (w2 & n & Hloop).
  exists w2, n. split; [done|].
  unfold processFile. unfold_M. cbn [w_fs w_console]. rewrite Hload.
  fold (moduleOutputDir env filePath outputDir moduleData_name). fold dir.
  cbn [w_fs w_console]. rewrite Hmkdir.
  unfold mbind, M_bind in Hloop. by rewrite Hloop.
Qed.
End PartialState.

Local Open Scope string_scope.

(** A sample that cannot be normalised, and the corrupt file of the music
    directory. *)
Lemma failure_leaves_no_partial_state_witness :
  (∃ w', processFile_sample Stub.mem_env Stub.marker_lamejs "out/bad" (Num 22050)
                            0 Stub.sample_unsupported 0 Stub.world0
         = (w', Ok 0%nat) ∧
         w_fs w' = w_fs Stub.world0) ∧
  (∃ w', processFile Stub.mem_env Stub.toy_xmpjs Stub.marker_lamejs
                     "music/broken.xm" "out" (Num 22050) Stub.world0
         = (w', Ok ()) ∧
         w_fs w' = w_fs Stub.world0).
Proof.
  destruct (failure_leaves_no_partial_state
              Stub.mem_env Stub.toy_xmpjs Stub.marker_lamejs)
    as (Hsample & Hfile).
  split.
  - apply (Hsample "out/bad" (Num 22050) 0%nat Stub.sample_unsupported 0%nat
                   Stub.world0 (Error "不明な8ビットサンプルデータ形式です。")).
    + reflexivity.
    + left. reflexivity.
  - apply (Hfile "music/broken.xm" "out" (Num 22050) Stub.world0
                 (mkWorld (w_fs Stub.world0) [LogProcessing "music/broken.xm"])
                 (Throw (Error "load failed"))).
    + reflexivity.
    + left. eexists. reflexivity.
Defined.

(** The module of ["music/b.it"], whose only sample fails: the directory
    ["out/bad"] is made, then the loop runs and the summary is printed. *)
Lemma module_directory_is_created_before_samples_witness :
  ∃ w2 extractedCount,
    processFile_loop Stub.mem_env Stub.marker_lamejs "out/bad" (Num 22050) 0
      [Stub.sample_unsupported] 0
      (mkWorld (Stub.mkMemFS ["music"; "out/bad"] (Stub.mem_files Stub.disk)
                : FS Stub.mem_env)
               [LogProcessing "music/b.it"])
    = (w2, Ok extractedCount) ∧
    processFile Stub.mem_env Stub.toy_xmpjs Stub.marker_lamejs
                "music/b.it" "out" (Num 22050) Stub.world0
    = (mkWorld (w_fs w2)
               (w_console w2 ++ [LogDone extractedCount 1 "out/bad"]),
       Ok ()).
Proof.
  apply (module_directory_is_created_before_samples Stub.mem_env Stub.toy_xmpjs
           Stub.marker_lamejs "music/b.it" "out" (Num 22050) Stub.world0
           (mkWorld (w_fs Stub.world0) [LogProcessing "music/b.it"])
           "bad" Stub.sample_unsupported []
           (Stub.mkMemFS ["music"; "out/bad"] (Stub.mem_files Stub.disk))).
  - reflexivity.
  - reflexivity.
Defined.

(** The empty second sample of the demo module. *)
Lemma empty_sample_is_skipped_witness :
  processFile_sample Stub.mem_env Stub.marker_lamejs "out/demo" (Num 22050)
                     1 Stub.sample_empty 1 Stub.world0
  = (Stub.world0, Ok 1%nat) ∧
  processFile_loop Stub.mem_env Stub.marker_lamejs "out/demo" (Num 22050)
                   1 [Stub.sample_empty; Stub.sample_8bit] 1 Stub.world0
  = processFile_loop Stub.mem_env Stub.marker_lamejs "out/demo" (Num 22050)
                     (1 + 1) [Stub.sample_8bit] 1 Stub.world0.
Proof.
  apply (empty_sample_is_skipped Stub.mem_env Stub.marker_lamejs "out/demo"
           (Num 22050) 1 Stub.sample_empty [Stub.sample_8bit] 1 Stub.world0).
  left. simpl. lia.
Defined.

(** A sample whose encoding throws, and the corrupt file of the music
    directory, after which the loop goes on with ["b.it"]. *)
Lemma failures_are_logged_and_skipped_witness :
  (processFile_sample Stub.mem_env Stub.failing_lamejs "out/demo" (Num 22050)
                      0 Stub.sample_8bit 0 Stub.world0
   = (mkWorld (w_fs Stub.world0) [ErrSampleFailed 0 "lead" "encode failed"],
      Ok 0%nat) ∧
   processFile_loop Stub.mem_env Stub.failing_lamejs "out/demo" (Num 22050)
                    0 [Stub.sample_8bit; Stub.sample_empty] 0 Stub.world0
   = processFile_loop Stub.mem_env Stub.failing_lamejs "out/demo" (Num 22050)
                      (0 + 1) [Stub.sample_empty] 0
                      (mkWorld (w_fs Stub.world0)
                               [ErrSampleFailed 0 "lead" "encode failed"])) ∧
  (processFile Stub.mem_env Stub.toy_xmpjs Stub.failing_lamejs
               "music/broken.xm" "out" (Num 22050) Stub.world0
   = (mkWorld (w_fs Stub.world0)
              [LogProcessing "music/broken.xm";
               ErrLoadFailed "music/broken.xm" "load failed"],
      Ok ()) ∧
   forEach_file Stub.mem_env Stub.toy_xmpjs Stub.failing_lamejs "music" "out"
                (Num 22050) ["broken.xm"; "b.it"] Stub.world0
   = forEach_file Stub.mem_env Stub.toy_xmpjs Stub.failing_lamejs "music" "out"
                  (Num 22050) ["b.it"]
                  (mkWorld (w_fs Stub.world0)
                           [LogProcessing "music/broken.xm";
                            ErrLoadFailed "music/broken.xm" "load failed"])).
Proof.
  destruct (failures_are_logged_and_skipped Stub.mem_env Stub.toy_xmpjs
              Stub.failing_lamejs) as (Hsample & _ & Hfile).
  split.
  - apply (Hsample "out/demo" (Num 22050) 0%nat Stub.sample_8bit
                   [Stub.sample_empty] 0%nat Stub.world0
                   (Error "encode failed") (w_fs Stub.world0)).
    + reflexivity.
    + right. left. eexists. split; [reflexivity|]. split; reflexivity.
  - destruct (Hfile "music" "out" (Num 22050) "broken.xm" ["b.it"] Stub.world0
                (mkWorld (w_fs Stub.world0) [LogProcessing "music/broken.xm"])
                (Error "load failed") eq_refl) as [Hprocess Hnext].
    split; [exact Hprocess|].
    apply (Hnext (mkStats false true)); reflexivity.
Defined.

Local Close Scope string_scope.

(** ** The documented scenarios, run on the in-memory disk *)

Local Open Scope string_scope.

Example sanitize_lead_guitar : sanitize "Lead Guitar #1!" = "Lead_Guitar__1_".
Proof. reflexivity. Qed.

(** A directory with one valid two-sample module (an 8-bit sample and an
    empty one), a corrupt file and a module whose sample fails: one
    artifact is written, the corrupt file is reported, the run completes. *)
Example directory_run :
  ∃ w, main Stub.mem_env Stub.toy_xmpjs Stub.marker_lamejs
            ["node"; "extract.js"; "music"; "out"] Stub.world0 = (w, Returned) ∧
       Stub.mem_dirs (w_fs w) = ["music"; "out"; "out/demo"; "out/bad"] ∧
       Stub.mem_files (w_fs w)
       = (Stub.mem_files Stub.disk
          ++ [("out/demo/01_lead.mp3", [x00; x03; x00; xff])])%list ∧
       w_console w
       = [LogStart; LogInput "/work/music"; LogOutput "/work/out";
          LogRate (Num 22050); LogSeparator; LogSearching "music";
          LogProcessing "music/a.mod"; LogDone 1 2 "out/demo";
          LogProcessing "music/broken.xm";
          ErrLoadFailed "music/broken.xm" "load failed";
          LogProcessing "music/b.it";
          ErrSampleFailed 0 "bad" "不明な8ビットサンプルデータ形式です。";
          LogDone 0 1 "out/bad"; LogFinished].
Proof.
  eexists. split; [vm_compute; reflexivity|]. repeat split; reflexivity.
Qed.

Local Close Scope string_scope.

(* ===================================================================== *)
(** * Further properties of the normaliser *)
(* ===================================================================== *)

(** Breaks the hypotheses made of disjunctions, conjunctions and
    existentials into their cases, dropping the contradictory ones. *)
Ltac split_cases :=
  repeat match goal with
         | H : _ ∧ _ |- _ => destruct H
         | H : ∃ _, _ |- _ => destruct H
         | H : _ ∨ _ |- _ => destruct H
         | H : _ = _ |- _ => discriminate H
         end.

Lemma byte_to_Z_range b : 0 <= byte_to_Z b <= 255.
Proof.
  unfold byte_to_Z. pose proof (Byte.to_N_bounded b). lia.
Qed.

(** A little-endian pair read as a signed word, in terms of the two bytes
    read as signed bytes: the low byte counts unsigned, the high byte
    signed. *)
Lemma int16_of_bytes_signed lo hi :
  int16_of_bytes lo hi = int8_of_byte lo mod 256 + 256 * int8_of_byte hi.
Proof.
  unfold int16_of_bytes, int8_of_byte, ToInt16, ToInt8.
  pose proof (byte_to_Z_range lo). pose proof (byte_to_Z_range hi).
  change (2 ^ 15) with 32768. change (2 ^ 16) with 65536.
  change (2 ^ 7) with 128. change (2 ^ 8) with 256.
  Z.to_euclidean_division_equations. lia.
Qed.

Lemma widen_loop_buffer (f : nat → Z) (l : list nat) : ∀ pcm16,
  let r := fold_left (λ pcm16 j, i16_set pcm16 j (f j)) l pcm16 in
  i16_byteOffset r = i16_byteOffset pcm16 ∧
  length (i16_buffer r) = length (i16_buffer pcm16).
Proof.
  induction l as [|j l IH]; intros pcm16; cbn [fold_left]; [done|].
  destruct (IH (i16_set pcm16 j (f j))) as [-> ->].
  by rewrite i16_set_byteOffset, i16_set_buffer_length.
Qed.

(** X1. [normalizeToPcm16] fails in exactly three situations, each with
    its own error: the 16-bit flag is set and the data is neither an
    [Int16Array] nor an [Int8Array] (format error); the 16-bit flag is set
    and the data is an [Int8Array] at an odd byte offset ([RangeError] of
    the constructor); the 16-bit flag is clear and the data is not an
    [Int8Array] (format error).  In every other case it returns. *)
Theorem normalize_fails_exactly_when (s : SampleInfo) (e : JsError) :
  (∀ a, data s = DataInt8 a → i8_wf a) →
  normalizeToPcm16 s = Throw e ↔
  (is16bit s = true ∧
   (data s = DataMissing ∨ ∃ l, data s = DataOther l) ∧
   e = Error "不明な16ビットサンプルデータ形式です。") ∨
  (is16bit s = true ∧
   (∃ a, data s = DataInt8 a ∧ Nat.Odd (i8_byteOffset a)) ∧
   e = RangeError "start offset of Int16Array should be a multiple of 2") ∨
  (is16bit s = false ∧
   (data s = DataMissing ∨ (∃ a, data s = DataInt16 a) ∨ ∃ l, data s = DataOther l) ∧
   e = Error "不明な8ビットサンプルデータ形式です。").
Proof.
  intros Hwf. unfold normalizeToPcm16. fold (is16bit s). cbv zeta.
  destruct (is16bit s), (data s) as [|a|a|l] eqn:Hdata;
    (split; [|intros H; split_cases; try by subst]).
  - intros [= <-]. left. split; [done|]. split; [by left|done].
  - specialize (Hwf a eq_refl). unfold i8_wf in Hwf.
    unfold new_Int16Array_view, ToIndex_half.
    destruct (i8_byteOffset a mod 2 =? 0)%nat eqn:Hpar; cbn [negb].
    + apply Nat.eqb_eq in Hpar.
      assert ((length (i8_buffer a) <? i8_byteOffset a + 2 * (i8_length a / 2))%nat
              = false) as ->.
      { apply Nat.ltb_ge. zify. Z.to_euclidean_division_equations. lia. }
      done.
    + intros [= <-]. right. left. split; [done|]. split; [|done].
      exists a. split; [done|].
      apply Nat.eqb_neq in Hpar. exists (i8_byteOffset a / 2)%nat.
      zify. Z.to_euclidean_division_equations. lia.
  - specialize (Hwf a eq_refl). unfold i8_wf in Hwf.
    match goal with Ha : DataInt8 a = DataInt8 ?a' |- _ => injection Ha as <- end.
    match goal with Ho : Nat.Odd _ |- _ => destruct Ho as [k Hk] end.
    unfold new_Int16Array_view. subst e.
    assert ((i8_byteOffset a mod 2 =? 0)%nat = false) as ->; [|done].
    apply Nat.eqb_neq. zify. Z.to_euclidean_division_equations. lia.
  - done.
  - intros [= <-]. left. split; [done|]. split; [right; by exists l|done].
  - intros [= <-]. right. right. split; [done|]. split; [by left|done].
  - done.
  - intros [= <-]. right. right. split; [done|].
    split; [right; left; by exists a|done].
  - intros [= <-]. right. right. split; [done|].
    split; [right; right; by exists l|done].
Qed.

(** The word data under a clear 16-bit flag is refused with the 8-bit
    format error. *)
Lemma normalize_fails_exactly_when_witness :
  normalizeToPcm16 Stub.sample_unsupported
  = Throw (Error "不明な8ビットサンプルデータ形式です。").
Proof.
  apply (normalize_fails_exactly_when Stub.sample_unsupported).
  - intros a Ha. discriminate Ha.
  - right. right. split; [reflexivity|]. split; [|reflexivity].
    right. left. eexists. reflexivity.
Defined.

(** X2. With the 16-bit flag set and a signed-byte buffer at an even byte
    offset, whatever the byte count [n], the result is a view on the very
    same buffer at the same offset with [n / 2] frames, and frame [j] is
    built from the signed bytes [2 j] (low, taken modulo 256) and
    [2 j + 1] (high, signed). *)
Theorem normalize_16bit_bytes_pairs_little_endian (s : SampleInfo) (a : Int8Array) :
  is16bit s = true → data s = DataInt8 a → i8_wf a →
  Nat.Even (i8_byteOffset a) →
  ∃ pcm, normalizeToPcm16 s = Ok pcm ∧
         i16_buffer pcm = i8_buffer a ∧
         i16_byteOffset pcm = i8_byteOffset a ∧
         i16_length pcm = (i8_length a / 2)%nat ∧
         ∀ j, (j < i16_length pcm)%nat →
              ∃ lo hi, i8_get a (2 * j) = Some lo ∧
                       i8_get a (2 * j + 1) = Some hi ∧
                       i16_get pcm j = Some (lo mod 256 + 256 * hi).
Proof.
  intros Hflag Hdata Hwf [m Hm]. unfold i8_wf in Hwf.
  unfold normalizeToPcm16. unfold is16bit in Hflag. rewrite Hflag, Hdata.
  cbv zeta. unfold new_Int16Array_view, ToIndex_half.
  assert ((i8_byteOffset a mod 2 =? 0)%nat = true) as ->.
  { apply Nat.eqb_eq. rewrite Hm. zify. Z.to_euclidean_division_equations. lia. }
  assert ((length (i8_buffer a) <? i8_byteOffset a + 2 * (i8_length a / 2))%nat
          = false) as ->.
  { apply Nat.ltb_ge. zify. Z.to_euclidean_division_equations. lia. }
  cbn [negb]. eexists. split; [done|].
  cbn [i16_buffer i16_byteOffset i16_length]. repeat split; try done.
  intros j Hj.
  assert (2 * j + 1 < i8_length a)%nat as Hj2
    by (zify; Z.to_euclidean_division_equations; lia).
  unfold i16_get, i8_get. cbn [i16_buffer i16_byteOffset i16_length].
  apply Nat.ltb_lt in Hj as ->.
  assert ((2 * j <? i8_length a)%nat = true) as -> by (apply Nat.ltb_lt; lia).
  apply Nat.ltb_lt in Hj2 as Hj2b. rewrite Hj2b.
  destruct (lookup_lt_is_Some_2 (i8_buffer a) (i8_byteOffset a + 2 * j))
    as [lo Hlo]; [lia|].
  destruct (lookup_lt_is_Some_2 (i8_buffer a) (i8_byteOffset a + 2 * j + 1))
    as [hi Hhi]; [lia|].
  replace (i8_byteOffset a + (2 * j + 1))%nat
    with (i8_byteOffset a + 2 * j + 1)%nat by lia.
  rewrite Hlo, Hhi. cbn [fmap option_fmap option_map].
  eexists _, _. split; [done|]. split; [done|].
  by rewrite int16_of_bytes_signed.
Qed.

(** Four bytes [0x34 0x12 0xff 0xff] give the two frames 0x1234 and -1. *)
Lemma normalize_16bit_bytes_pairs_little_endian_witness :
  ∃ pcm, normalizeToPcm16
           (mkSampleInfo "w" 2 4 (DataInt8 (mkInt8Array [x34; x12; xff; xff] 0 4)))
         = Ok pcm ∧
         i16_buffer pcm = [x34; x12; xff; xff] ∧
         i16_byteOffset pcm = 0%nat ∧
         i16_length pcm = (4 / 2)%nat ∧
         ∀ j, (j < i16_length pcm)%nat →
              ∃ lo hi,
                i8_get (mkInt8Array [x34; x12; xff; xff] 0 4) (2 * j) = Some lo ∧
                i8_get (mkInt8Array [x34; x12; xff; xff] 0 4) (2 * j + 1) = Some hi ∧
                i16_get pcm j = Some (lo mod 256 + 256 * hi).
Proof.
  apply (normalize_16bit_bytes_pairs_little_endian
           (mkSampleInfo "w" 2 4 (DataInt8 (mkInt8Array [x34; x12; xff; xff] 0 4)))
           (mkInt8Array [x34; x12; xff; xff] 0 4)).
  - reflexivity.
  - reflexivity.
  - unfold i8_wf. simpl. lia.
  - exists 0%nat. reflexivity.
Defined.

(** X3. In the 8-bit branch every frame of the result is a multiple of 256
    between -32768 and 32512 (so 32767 is never reached), and shifting a
    frame right by 8 bits gives back the input byte at the same index: the
    widening loses nothing. *)
Theorem normalize_8bit_frames_recover_bytes (s : SampleInfo) (a : Int8Array) :
  is16bit s = false → data s = DataInt8 a → i8_wf a →
  ∃ pcm, normalizeToPcm16 s = Ok pcm ∧
         ∀ j v, i16_get pcm j = Some v →
                -32768 <= v <= 32512 ∧ v mod 256 = 0 ∧
                i8_get a j = Some (Z.shiftr v 8).
Proof.
  intros Hflag Hdata Hwf. unfold normalizeToPcm16.
  unfold is16bit in Hflag. rewrite Hflag, Hdata. cbv zeta.
  eexists. split; [done|].
  destruct (widen_loop_invariant (λ j, js_shl (i8_get a j) 8)
              (i8_length a) (i8_length a)) as (_ & Hlen & Hget); [lia|].
  intros j v Hv.
  assert (j < i8_length a)%nat as Hj.
  { rewrite <- Hlen. unfold i16_get in Hv.
    destruct (_ <? _)%nat eqn:E in Hv; [by apply Nat.ltb_lt|done]. }
  destruct (i8_get_wf a j Hwf Hj) as (b & Hb & Hrange).
  rewrite (Hget j Hj), Hb in Hv.
  destruct (js_shl_8_int8 b Hrange) as [Hshl Hfit].
  rewrite Hshl, Hfit in Hv. injection Hv as <-.
  split; [lia|]. split; [by rewrite Z.mod_mul|].
  rewrite Hb, Z.shiftr_div_pow2 by lia. change (2 ^ 8) with 256.
  by rewrite Z.div_mul.
Qed.

(** The frames of the bytes -128, 0, 127. *)
Lemma normalize_8bit_frames_recover_bytes_witness :
  ∃ pcm, normalizeToPcm16 Stub.sample_8bit = Ok pcm ∧
         ∀ j v, i16_get pcm j = Some v →
                -32768 <= v <= 32512 ∧ v mod 256 = 0 ∧
                i8_get Stub.bytes3 j = Some (Z.shiftr v 8).
Proof.
  apply (normalize_8bit_frames_recover_bytes Stub.sample_8bit Stub.bytes3).
  - reflexivity.
  - reflexivity.
  - unfold i8_wf. simpl. lia.
Defined.

(** X4. Whatever [normalizeToPcm16] returns lies inside its buffer.  With
    the 16-bit flag set the result is a view on the decoder's own buffer
    (the [Int16Array] itself, or the [Int8Array]'s buffer at the same
    offset); with the flag clear it is a fresh buffer of two bytes per
    frame, at offset 0. *)
Theorem normalize_result_in_bounds (s : SampleInfo) (pcm : Int16Array) :
  (∀ a, data s = DataInt16 a → i16_wf a) →
  normalizeToPcm16 s = Ok pcm →
  i16_wf pcm ∧
  (is16bit s = true →
     data s = DataInt16 pcm ∨
     ∃ a, data s = DataInt8 a ∧ i16_buffer pcm = i8_buffer a ∧
          i16_byteOffset pcm = i8_byteOffset a) ∧
  (is16bit s = false →
     i16_byteOffset pcm = 0%nat ∧
     length (i16_buffer pcm) = (2 * i16_length pcm)%nat).
Proof.
  intros Hwf16. unfold normalizeToPcm16. fold (is16bit s). cbv zeta.
  destruct (is16bit s), (data s) as [|a|a|l] eqn:Hdata; try discriminate.
  - unfold new_Int16Array_view, ToIndex_half.
    destruct (negb _); [discriminate|].
    destruct (_ <? _)%nat eqn:Hfit; [discriminate|].
    apply Nat.ltb_ge in Hfit. intros Heq.
    assert (pcm = mkInt16Array (i8_buffer a) (i8_byteOffset a) (i8_length a / 2))
      as -> by congruence.
    split; [unfold i16_wf; cbn [i16_buffer i16_byteOffset i16_length]; lia|].
    split; [|done].
    intros _. right. by exists a.
  - intros [= <-]. split; [by apply Hwf16|]. split; [|done]. intros _. by left.
  - intros [= <-].
    destruct (widen_loop_invariant (λ j, js_shl (i8_get a j) 8)
                (i8_length a) (i8_length a)) as (Hwf & Hlen & _); [lia|].
    destruct (widen_loop_buffer (λ j, js_shl (i8_get a j) 8)
                (seq 0 (i8_length a)) (new_Int16Array (i8_length a)))
      as [Hoff Hbuf].
    split; [done|]. split; [done|]. intros _.
    rewrite Hoff, Hbuf, Hlen. cbn [new_Int16Array i16_byteOffset i16_buffer].
    by rewrite length_replicate.
Qed.

(** The words sample is handed back as it is. *)
Lemma normalize_result_in_bounds_witness :
  i16_wf (mkInt16Array [x34; x12; xff; xff] 0 2) ∧
  (is16bit Stub.sample_words = true →
     data Stub.sample_words = DataInt16 (mkInt16Array [x34; x12; xff; xff] 0 2) ∨
     ∃ a, data Stub.sample_words = DataInt8 a ∧
          i16_buffer (mkInt16Array [x34; x12; xff; xff] 0 2) = i8_buffer a ∧
          i16_byteOffset (mkInt16Array [x34; x12; xff; xff] 0 2) = i8_byteOffset a) ∧
  (is16bit Stub.sample_words = false →
     i16_byteOffset (mkInt16Array [x34; x12; xff; xff] 0 2) = 0%nat ∧
     length (i16_buffer (mkInt16Array [x34; x12; xff; xff] 0 2))
     = (2 * i16_length (mkInt16Array [x34; x12; xff; xff] 0 2))%nat).
Proof.
  apply (normalize_result_in_bounds Stub.sample_words).
  - intros a [= <-]. unfold i16_wf. simpl. lia.
  - reflexivity.
Defined.

(* ===================================================================== *)
(** * Further properties of the encoder adapter *)
(* ===================================================================== *)

Section EncoderMore.
Context (lamejs : Lamejs).

Lemma encodeToMp3_as_blocks pcm rate :
  encodeToMp3 lamejs pcm rate
  = encode_blocks_then_flush lamejs (pcm_blocks pcm) rate.
Proof.
  unfold encodeToMp3, encode_blocks_then_flush. change MP3_KBPS with 128.
  destruct (Mp3Encoder lamejs 1 rate 128) as [enc|e];
    cbn [mbind Result_bind]; [|done].
  pose proof (encodeToMp3_loop_feeds lamejs pcm
                (block_count (i16_length pcm)) 0 enc [] eq_refl) as Hloop.
  change (0 * MP3_BLOCK_SIZE)%nat with 0%nat in Hloop. rewrite Hloop.
  fold (pcm_blocks pcm).
  destruct (feed_blocks lamejs enc (pcm_blocks pcm)) as [[enc' chunks]|e];
    cbn [mbind Result_bind]; [|done].
  destruct (flush lamejs enc') as [[enc'' trailing]|e];
    cbn [mbind Result_bind]; [|done].
  rewrite push_nonempty_filter, app_nil_l, <- filter_app.
  done.
Qed.

Lemma feed_blocks_app l1 : ∀ enc l2,
  feed_blocks lamejs enc (l1 ++ l2)
  = ('(enc1, chunks1) ← feed_blocks lamejs enc l1;
     '(enc2, chunks2) ← feed_blocks lamejs enc1 l2;
     Ok (enc2, chunks1 ++ chunks2)).
Proof.
  induction l1 as [|block l1 IH]; intros enc l2.
  - cbn [app feed_blocks mbind Result_bind].
    by destruct (feed_blocks lamejs enc l2) as [[? ?]|].
  - cbn [app feed_blocks].
    destruct (encodeBuffer lamejs enc block) as [[enc' chunk]|e];
      cbn [mbind Result_bind]; [|done].
    rewrite IH.
    destruct (feed_blocks lamejs enc' l1) as [[enc1 chunks1]|e];
      cbn [mbind Result_bind]; [|done].
    by destruct (feed_blocks lamejs enc1 l2) as [[? ?]|].
Qed.

Lemma pcm_blocks_empty pcm : i16_length pcm = 0%nat → pcm_blocks pcm = [].
Proof. intros H. unfold pcm_blocks. by rewrite H. Qed.

Lemma pcm_blocks_single pcm :
  (0 < i16_length pcm <= MP3_BLOCK_SIZE)%nat → pcm_blocks pcm = [pcm].
Proof.
  intros H. unfold pcm_blocks.
  assert (block_count (i16_length pcm) = 1%nat) as ->.
  { unfold block_count, MP3_BLOCK_SIZE in *.
    zify. Z.to_euclidean_division_equations. lia. }
  cbn [seq map]. f_equal. unfold pcm_block, i16_subarray.
  destruct pcm as [buf off n]. cbn [i16_length i16_byteOffset i16_buffer] in *.
  f_equal; unfold MP3_BLOCK_SIZE in *; lia.
Qed.

Lemma filter_nonempty_bytes chunks :
  concat (i8_bytes <$> filter (λ c, (0 < i8_length c)%nat) chunks)
  = concat (chunk_bytes <$> chunks).
Proof.
  induction chunks as [|c chunks IH]; [done|].
  rewrite filter_cons, fmap_cons. cbn [concat]. rewrite <- IH.
  unfold chunk_bytes.
  destruct (decide (0 < i8_length c)%nat) as [H|H].
  - apply Nat.ltb_lt in H as ->. by rewrite fmap_cons.
  - by apply Nat.ltb_nlt in H as ->.
Qed.

(** X5. An empty PCM sequence is never handed to [encodeBuffer]: the
    encoder is constructed and flushed, and the result is the flush output
    alone (nothing at all when the flush output is empty). *)
Theorem encodeToMp3_empty_only_flushes pcm rate :
  i16_length pcm = 0%nat →
  encodeToMp3 lamejs pcm rate
  = (enc ← Mp3Encoder lamejs 1 rate 128;
     '(_, trailing) ← flush lamejs enc;
     Ok (chunk_bytes trailing)).
Proof.
  intros Hlen. rewrite encodeToMp3_as_blocks, pcm_blocks_empty by done.
  unfold encode_blocks_then_flush.
  destruct (Mp3Encoder lamejs 1 rate 128) as [enc|e];
    cbn [mbind Result_bind feed_blocks]; [|done].
  destruct (flush lamejs enc) as [[enc' trailing]|e];
    cbn [mbind Result_bind]; [|done].
  rewrite filter_nonempty_bytes. cbn [app fmap list_fmap concat].
  by rewrite app_nil_r.
Qed.

(** X6. A PCM sequence of at most 1152 frames goes to [encodeBuffer] in
    one call, as the whole sequence itself (same buffer, offset and
    length); then comes the flush. *)
Theorem encodeToMp3_short_single_call pcm rate :
  (0 < i16_length pcm <= MP3_BLOCK_SIZE)%nat →
  encodeToMp3 lamejs pcm rate
  = (enc ← Mp3Encoder lamejs 1 rate 128;
     '(enc, chunk) ← encodeBuffer lamejs enc pcm;
     '(_, trailing) ← flush lamejs enc;
     Ok (chunk_bytes chunk ++ chunk_bytes trailing)).
Proof.
  intros Hlen. rewrite encodeToMp3_as_blocks, pcm_blocks_single by done.
  unfold encode_blocks_then_flush.
  destruct (Mp3Encoder lamejs 1 rate 128) as [enc|e];
    cbn [mbind Result_bind feed_blocks]; [|done].
  destruct (encodeBuffer lamejs enc pcm) as [[enc' chunk]|e];
    cbn [mbind Result_bind]; [|done].
  destruct (flush lamejs enc') as [[enc'' trailing]|e];
    cbn [mbind Result_bind]; [|done].
  rewrite filter_nonempty_bytes. cbn [app fmap list_fmap concat].
  by rewrite app_nil_r.
Qed.

(** X7. [encodeToMp3] passes on the first error of the encoder: the error
    of the constructor; or, when the blocks before block [b] were accepted,
    the error [encodeBuffer] throws on block [b]; or, when every block was
    accepted, the error of [flush]. *)
Theorem encodeToMp3_passes_on_first_error pcm rate e :
  (Mp3Encoder lamejs 1 rate 128 = Throw e →
   encodeToMp3 lamejs pcm rate = Throw e) ∧
  (∀ enc0 b enc_b chunks,
     Mp3Encoder lamejs 1 rate 128 = Ok enc0 →
     (b < block_count (i16_length pcm))%nat →
     feed_blocks lamejs enc0 (take b (pcm_blocks pcm)) = Ok (enc_b, chunks) →
     encodeBuffer lamejs enc_b (pcm_block pcm b) = Throw e →
     encodeToMp3 lamejs pcm rate = Throw e) ∧
  (∀ enc0 enc_n chunks,
     Mp3Encoder lamejs 1 rate 128 = Ok enc0 →
     feed_blocks lamejs enc0 (pcm_blocks pcm) = Ok (enc_n, chunks) →
     flush lamejs enc_n = Throw e →
     encodeToMp3 lamejs pcm rate = Throw e).
Proof.
  rewrite encodeToMp3_as_blocks. unfold encode_blocks_then_flush.
  split; [|split].
  - by intros ->.
  - intros enc0 b enc_b chunks -> Hb Hfed Hthrow. cbn [mbind Result_bind].
    assert (pcm_blocks pcm !! b = Some (pcm_block pcm b)) as Hblock.
    { unfold pcm_blocks. by rewrite list_lookup_fmap, lookup_seq_lt. }
    rewrite <- (take_drop_middle _ _ _ Hblock), feed_blocks_app, Hfed.
    cbn [mbind Result_bind feed_blocks]. by rewrite Hthrow.
  - intros enc0 enc_n chunks -> Hfed Hthrow. cbn [mbind Result_bind].
    rewrite Hfed. cbn [mbind Result_bind]. by rewrite Hthrow.
Qed.

(** X8. When nothing throws, the output is as long as the chunks the
    encoder returned, flush output included, taken together: nothing is
    added and nothing is dropped. *)
Theorem encodeToMp3_length_is_sum_of_chunks pcm rate enc0 enc_n chunks enc_f trailing :
  Mp3Encoder lamejs 1 rate 128 = Ok enc0 →
  feed_blocks lamejs enc0 (pcm_blocks pcm) = Ok (enc_n, chunks) →
  flush lamejs enc_n = Ok (enc_f, trailing) →
  Forall i8_wf (chunks ++ [trailing]) →
  ∃ mp3, encodeToMp3 lamejs pcm rate = Ok mp3 ∧
         length mp3 = sum_list (i8_length <$> (chunks ++ [trailing])).
Proof.
  intros Hnew Hfed Hflush Hwf.
  rewrite encodeToMp3_as_blocks. unfold encode_blocks_then_flush.
  rewrite Hnew. cbn [mbind Result_bind]. rewrite Hfed. cbn [mbind Result_bind].
  rewrite Hflush. cbn [mbind Result_bind].
  eexists. split; [done|]. rewrite filter_nonempty_bytes.
  induction Hwf as [|c l Hc _ IH]; [done|].
  rewrite !fmap_cons. cbn [concat sum_list sum_list_with].
  rewrite length_app, IH. f_equal.
  unfold chunk_bytes, i8_bytes, id. unfold i8_wf in Hc.
  destruct (0 <? i8_length c)%nat eqn:E.
  - rewrite length_take, length_drop. lia.
  - apply Nat.ltb_ge in E. cbn [length]. lia.
Qed.
End EncoderMore.

(** No frames: the marker encoder's flush byte is all there is. *)
Lemma encodeToMp3_empty_only_flushes_witness :
  encodeToMp3 Stub.marker_lamejs (mkInt16Array [] 0 0) (Num 22050)
  = (enc ← Mp3Encoder Stub.marker_lamejs 1 (Num 22050) 128;
     '(_, trailing) ← flush Stub.marker_lamejs enc;
     Ok (chunk_bytes trailing)).
Proof.
  apply (encodeToMp3_empty_only_flushes Stub.marker_lamejs
           (mkInt16Array [] 0 0) (Num 22050)).
  reflexivity.
Defined.

(** Two frames: one call. *)
Lemma encodeToMp3_short_single_call_witness :
  encodeToMp3 Stub.marker_lamejs (mkInt16Array [x34; x12; xff; xff] 0 2) (Num 22050)
  = (enc ← Mp3Encoder Stub.marker_lamejs 1 (Num 22050) 128;
     '(enc, chunk) ← encodeBuffer Stub.marker_lamejs enc
                       (mkInt16Array [x34; x12; xff; xff] 0 2);
     '(_, trailing) ← flush Stub.marker_lamejs enc;
     Ok (chunk_bytes chunk ++ chunk_bytes trailing)).
Proof.
  apply (encodeToMp3_short_single_call Stub.marker_lamejs
           (mkInt16Array [x34; x12; xff; xff] 0 2) (Num 22050)).
  unfold MP3_BLOCK_SIZE. simpl. lia.
Defined.

(** The failing encoder refuses the first block of 2500 frames. *)
Lemma encodeToMp3_passes_on_first_error_witness :
  encodeToMp3 Stub.failing_lamejs Stub.pcm_2500 (Num 22050)
  = Throw (Error "encode failed").
Proof.
  destruct (encodeToMp3_passes_on_first_error Stub.failing_lamejs
              Stub.pcm_2500 (Num 22050) (Error "encode failed"))
    as (_ & Hblock & _).
  apply (Hblock () 0%nat () []).
  - reflexivity.
  - vm_compute. lia.
  - reflexivity.
  - reflexivity.
Defined.

(** 2500 frames with the marker encoder: three markers of three bytes and
    the flush byte. *)
Lemma encodeToMp3_length_is_sum_of_chunks_witness :
  ∃ mp3, encodeToMp3 Stub.marker_lamejs Stub.pcm_2500 (Num 22050) = Ok mp3 ∧
         length mp3 = (3 + 3 + 3 + 1)%nat.
Proof.
  destruct (encodeToMp3_length_is_sum_of_chunks Stub.marker_lamejs
              Stub.pcm_2500 (Num 22050) 0%nat 3%nat
              [mkInt8Array [x00; x80; x04] 0 3; mkInt8Array [x01; x80; x04] 0 3;
               mkInt8Array [x02; xc4; x00] 0 3]
              3%nat (mkInt8Array [xff] 0 1)) as (mp3 & Hrun & Hlen).
  - reflexivity.
  - vm_compute. reflexivity.
  - reflexivity.
  - repeat constructor; unfold i8_wf; simpl; lia.
  - exists mp3. split; [exact Hrun|]. rewrite Hlen. reflexivity.
Defined.

(* ===================================================================== *)
(** * Further properties of the helpers of the orchestrator *)
(* ===================================================================== *)

(** X9. [toArrayBuffer] copies exactly the bytes the [Buffer] views: the
    result has [byteLength] bytes, byte [j] being the byte at
    [byteOffset + j] of the underlying (possibly pooled) array buffer;
    what lies before and after the view is left out. *)
Theorem toArrayBuffer_copies_the_view (b : NodeBuffer) :
  (nb_byteOffset b + nb_byteLength b <= length (nb_buffer b))%nat →
  length (toArrayBuffer b) = nb_byteLength b ∧
  (∀ j, (j < nb_byteLength b)%nat →
        toArrayBuffer b !! j = nb_buffer b !! (nb_byteOffset b + j)%nat) ∧
  (∀ j, (nb_byteLength b <= j)%nat → toArrayBuffer b !! j = None).
Proof.
  intros Hwf. unfold toArrayBuffer.
  assert (length (take (nb_byteLength b) (drop (nb_byteOffset b) (nb_buffer b)))
          = nb_byteLength b) as Hlen
    by (rewrite length_take, length_drop; lia).
  split; [done|]. split.
  - intros j Hj. by rewrite lookup_take_lt, lookup_drop.
  - intros j Hj. apply lookup_ge_None. lia.
Qed.

(** A two-byte file in the middle of a five-byte pool. *)
Lemma toArrayBuffer_copies_the_view_witness :
  length (toArrayBuffer (mkNodeBuffer [x00; x4d; x54; x00; x00] 1 2)) = 2%nat ∧
  (∀ j, (j < 2)%nat →
        toArrayBuffer (mkNodeBuffer [x00; x4d; x54; x00; x00] 1 2) !! j
        = [x00; x4d; x54; x00; x00] !! (1 + j)%nat) ∧
  (∀ j, (2 <= j)%nat →
        toArrayBuffer (mkNodeBuffer [x00; x4d; x54; x00; x00] 1 2) !! j = None).
Proof.
  apply (toArrayBuffer_copies_the_view (mkNodeBuffer [x00; x4d; x54; x00; x00] 1 2)).
  simpl. lia.
Defined.

(** ** Sanitised names *)

Lemma is_alnum_underscore_false : is_alnum "_"%char = false.
Proof. reflexivity. Qed.

(** X10. [sanitize] replaces character by character: the length is kept,
    every character of the result is an ASCII letter, a digit or an
    underscore, a name made of letters and digits is left as it is, and
    sanitising twice changes nothing more. *)
Theorem sanitize_keeps_length_and_safe_characters (s : string) :
  String.length (sanitize s) = String.length s ∧
  Forall (λ c, is_alnum c = true ∨ c = "_"%char)
         (list_ascii_of_string (sanitize s)) ∧
  (Forall (λ c, is_alnum c = true) (list_ascii_of_string s) → sanitize s = s) ∧
  sanitize (sanitize s) = sanitize s.
Proof.
  induction s as [|c s (IHlen & IHsafe & IHid & IHtwice)].
  - repeat split; constructor.
  - cbn [sanitize String.length list_ascii_of_string].
    split; [by rewrite IHlen|]. split; [|split].
    + constructor; [|done]. destruct (is_alnum c) eqn:E; [by left|by right].
    + intros H. apply Forall_cons in H as [Hc Hs]. by rewrite Hc, IHid.
    + cbn [sanitize]. rewrite IHtwice. f_equal.
      destruct (is_alnum c) eqn:E; [by rewrite E|].
      by rewrite is_alnum_underscore_false.
Qed.

(** ** Trimmed names *)

Lemma trimStart_head s c r :
  trimStart s = String c r → is_white_space c = false.
Proof.
  induction s as [|a s IH]; cbn [trimStart]; [done|].
  destruct (is_white_space a) eqn:E; [done|]. by intros [= <- _].
Qed.

Lemma trimStart_id s :
  (∀ c r, s = String c r → is_white_space c = false) → trimStart s = s.
Proof.
  destruct s as [|a s]; [done|]. intros H. cbn [trimStart].
  by rewrite (H a s eq_refl).
Qed.

Lemma trimEnd_head s c r : trimEnd s = String c r → ∃ s', s = String c s'.
Proof.
  destruct s as [|a s]; cbn [trimEnd]; [done|].
  destruct (trimEnd s); [destruct (is_white_space a)|];
    intros H; inversion H; subst; eauto.
Qed.

Lemma trimEnd_last s : ∀ r c,
  trimEnd s = (r ++ String c EmptyString)%string → is_white_space c = false.
Proof.
  induction s as [|a s IH]; intros r c; cbn [trimEnd].
  - by destruct r.
  - destruct (trimEnd s) as [|b t] eqn:E.
    + destruct (is_white_space a) eqn:Ea; [by destruct r|].
      destruct r as [|x [|y r]]; cbn; intros H; inversion H; by subst.
    + destruct r as [|x r]; cbn; intros H; inversion H as [[Ha Hr]].
      by apply (IH r c).
Qed.

Lemma trimEnd_idempotent s : trimEnd (trimEnd s) = trimEnd s.
Proof.
  induction s as [|a s IH]; [done|]. cbn [trimEnd].
  destruct (trimEnd s) as [|b t] eqn:E.
  - destruct (is_white_space a) eqn:Ea; [done|]. cbn [trimEnd]. by rewrite Ea.
  - cbn [trimEnd] in *. by rewrite IH.
Qed.

Lemma trimEnd_empty s :
  trimEnd s = EmptyString ↔
  Forall (λ c, is_white_space c = true) (list_ascii_of_string s).
Proof.
  induction s as [|a s IH]; cbn [trimEnd list_ascii_of_string].
  - split; [constructor|done].
  - rewrite Forall_cons, <- IH.
    destruct (trimEnd s); [|split; [done|by intros [_ ?]]].
    destruct (is_white_space a); split; try done; by intros [? _].
Qed.

Lemma trimStart_all_white_space s :
  Forall (λ c, is_white_space c = true) (list_ascii_of_string (trimStart s)) ↔
  Forall (λ c, is_white_space c = true) (list_ascii_of_string s).
Proof.
  induction s as [|a s IH]; cbn [trimStart]; [done|].
  destruct (is_white_space a) eqn:E; [|done].
  cbn [list_ascii_of_string]. rewrite Forall_cons, IH. split; [done|by intros [_ ?]].
Qed.

Lemma trim_head s c r : trim s = String c r → is_white_space c = false.
Proof.
  unfold trim. intros H. apply trimEnd_head in H as [s' Hs'].
  by apply trimStart_head in Hs'.
Qed.

Lemma trim_empty s :
  trim s = EmptyString ↔
  Forall (λ c, is_white_space c = true) (list_ascii_of_string s).
Proof. unfold trim. by rewrite trimEnd_empty, trimStart_all_white_space. Qed.

(** X11. [trim] leaves a string that neither starts nor ends with white
    space; it gives the empty string exactly for the strings made of white
    space only; and trimming twice changes nothing more. *)
Theorem trim_strips_both_ends (s : string) :
  (∀ c r, trim s = String c r → is_white_space c = false) ∧
  (∀ r c, trim s = (r ++ String c EmptyString)%string → is_white_space c = false) ∧
  (trim s = EmptyString ↔
   Forall (λ c, is_white_space c = true) (list_ascii_of_string s)) ∧
  trim (trim s) = trim s.
Proof.
  split; [apply trim_head|]. split; [apply trimEnd_last|].
  split; [apply trim_empty|].
  unfold trim at 1. rewrite trimStart_id by apply trim_head.
  unfold trim. apply trimEnd_idempotent.
Qed.

(** X12. The name a sample is reported and saved under is never empty: it
    is the trimmed declared name, unless the declared name is empty or all
    white space, in which case it is ["Sample "] followed by the 1-based
    index. *)
Theorem sample_name_falls_back_when_blank (i : nat) (s : SampleInfo) :
  sampleNameRaw i s ≠ EmptyString ∧
  (Forall (λ c, is_white_space c = true) (list_ascii_of_string (name s)) →
   sampleNameRaw i s = ("Sample " ++ String_of_nat (i + 1))%string) ∧
  (¬ Forall (λ c, is_white_space c = true) (list_ascii_of_string (name s)) →
   sampleNameRaw i s = trim (name s)).
Proof.
  unfold sampleNameRaw, or_else, or_default.
  destruct (trim (name s)) as [|c r] eqn:E.
  - split; [done|]. split; [done|]. intros H. by apply trim_empty in E.
  - split; [done|]. split; [|done]. intros H. apply trim_empty in H. congruence.
Qed.

(** A blank name at index 2, and a padded one. *)
Lemma sample_name_falls_back_when_blank_witness :
  sampleNameRaw 2 (mkSampleInfo "  " 1 0 DataMissing) = "Sample 3"%string ∧
  sampleNameRaw 2 (mkSampleInfo " kick " 1 0 DataMissing) = "kick"%string.
Proof.
  split.
  - destruct (sample_name_falls_back_when_blank 2 (mkSampleInfo "  " 1 0 DataMissing))
      as (_ & Hblank & _).
    apply Hblank. repeat constructor.
  - destruct (sample_name_falls_back_when_blank 2
                (mkSampleInfo " kick " 1 0 DataMissing)) as (_ & _ & Hnamed).
    rewrite Hnamed; [reflexivity|].
    intros H. apply Forall_cons in H as [_ H]. apply Forall_cons in H as [H _].
    discriminate H.
Defined.

(** ** Decimal indices and rates *)

Local Open Scope string_scope.

Lemma digits_value_stop rest acc :
  (∀ c r, rest = String c r → is_digit c = false) →
  digits_value rest acc = acc.
Proof.
  intros H. destruct rest as [|c r]; [done|]. cbn [digits_value].
  by rewrite (H c r eq_refl).
Qed.

(** Reading the digits of [d] after the value [a]. *)
Lemma digits_value_uint d : ∀ rest a,
  (∀ c r, rest = String c r → is_digit c = false) → (0 <= a)%Z →
  digits_value (NilEmpty.string_of_uint d ++ rest) (Some a)
  = Some (Z.of_nat (Nat.of_uint_acc d (Z.to_nat a))).
Proof.
  induction d as [|d IH|d IH|d IH|d IH|d IH|d IH|d IH|d IH|d IH|d IH];
    intros rest a Hrest Ha;
    cbn [NilEmpty.string_of_uint append Nat.of_uint_acc];
    [rewrite digits_value_stop by done; f_equal; lia|..].
  all: cbn [digits_value]; change (is_digit _) with true; cbv iota.
  all: cbn [default from_option id].
  all: match goal with
       | |- context [Z.of_nat (code ?c)] =>
           let v := eval vm_compute in (Z.of_nat (code c) - 48)%Z in
           change (Z.of_nat (code c) - 48)%Z with v
       end.
  all: rewrite IH by (try done; lia); do 3 f_equal.
  all: rewrite Nat.tail_mul_spec; lia.
Qed.

Lemma digits_uint d rest :
  d ≠ Decimal.Nil →
  (∀ c r, rest = String c r → is_digit c = false) →
  digits_value (NilEmpty.string_of_uint d ++ rest) None
  = Some (Z.of_nat (Nat.of_uint d)).
Proof.
  intros Hd Hrest.
  transitivity (digits_value (NilEmpty.string_of_uint d ++ rest) (Some 0%Z));
    [by destruct d|].
  by rewrite digits_value_uint.
Qed.

Lemma parseInt10_uint d rest :
  d ≠ Decimal.Nil →
  (∀ c r, rest = String c r → is_digit c = false) →
  parseInt10 (NilEmpty.string_of_uint d ++ rest)
  = to_double (Z.of_nat (Nat.of_uint d)).
Proof.
  intros Hd Hrest. pose proof (digits_uint d rest Hd Hrest) as Hdigits.
  unfold parseInt10.
  destruct d; [done|..];
    cbn [NilEmpty.string_of_uint append trimStart] in *;
    change (is_white_space _) with false; cbv iota beta;
    cbn [split_sign]; rewrite Hdigits; by rewrite Z.mul_1_l.
Qed.

Lemma String_of_nat_uint n :
  ∃ d, String_of_nat n = NilEmpty.string_of_uint d ∧ Nat.of_uint d = n ∧
       d ≠ Decimal.Nil.
Proof.
  unfold String_of_nat, NilZero.string_of_uint.
  pose proof (DecimalNat.Unsigned.of_to n) as Hn.
  destruct (Nat.to_uint n) as [|d|d|d|d|d|d|d|d|d|d] eqn:E;
    [by exists (Decimal.D0 Decimal.Nil)|..]; by eexists.
Qed.

Lemma padStart2_uint n :
  ∃ d, padStart2 (String_of_nat n) = NilEmpty.string_of_uint d ∧
       Nat.of_uint d = n ∧ d ≠ Decimal.Nil.
Proof.
  destruct (String_of_nat_uint n) as (d & -> & Hd & Hnil).
  unfold padStart2.
  destruct (String.length (NilEmpty.string_of_uint d)) as [|[|k]] eqn:E.
  - by destruct d.
  - exists (Decimal.D0 d). split; [done|]. split; [|done].
    rewrite <- Hd. unfold Nat.of_uint. cbn [Nat.of_uint_acc].
    by rewrite Nat.tail_mul_spec.
  - by exists d.
Qed.

(** X13. [parseInt(s, 10)] reads back the decimal text of any
    non-negative integer below [2^53], whatever non-digit text follows
    it; so a [sample_rate] argument written as such a decimal number, with
    or without a unit after it, is the rate [main] uses.  (From [2^53] on
    the result is rounded to a double.) *)
Theorem parseInt10_reads_decimal (n : nat) (rest : string) :
  (Z.of_nat n < 2 ^ 53)%Z →
  (∀ c r, rest = String c r → is_digit c = false) →
  parseInt10 (String_of_nat n ++ rest) = Num (Z.of_nat n) ∧
  ∀ argv, argv !! 4%nat = Some (String_of_nat n ++ rest) →
          main_sampleRate argv = Num (Z.of_nat n).
Proof.
  intros Hsmall Hrest.
  destruct (String_of_nat_uint n) as (d & Hs & Hd & Hnil).
  assert (parseInt10 (String_of_nat n ++ rest) = Num (Z.of_nat n)) as Hparse
    by (rewrite Hs, parseInt10_uint, Hd, to_double_small; [done|lia|done..]).
  split; [done|]. intros argv Harg. unfold main_sampleRate. rewrite Harg.
  rewrite <- Hparse. f_equal. rewrite Hs. by destruct d.
Qed.

(** ["4000Hz"] *)
Lemma parseInt10_reads_decimal_witness :
  parseInt10 (String_of_nat 4000 ++ "Hz") = Num (Z.of_nat 4000) ∧
  ∀ argv, argv !! 4%nat = Some (String_of_nat 4000 ++ "Hz") →
          main_sampleRate argv = Num (Z.of_nat 4000).
Proof.
  apply (parseInt10_reads_decimal 4000 "Hz").
  - vm_compute. reflexivity.
  - intros c r [= <- _]. reflexivity.
Defined.

(** Above [2^53] the digits are rounded to the nearest double, ties to
    even. *)
Example parseInt10_rounds_large_integers :
  parseInt10 "9007199254740993" = Num 9007199254740992 ∧
  parseInt10 "9007199254740995" = Num 9007199254740996 ∧
  parseInt10 "-9007199254740993" = Num (-9007199254740992) ∧
  parseInt10 "9007199254740992" = Num 9007199254740992.
Proof. repeat split; vm_compute; reflexivity. Qed.

(** X14. The index prefix tells the files of a module apart: two samples
    at different indices never get the same file name, whatever their
    names, and so never the same path, as long as [path.join] keeps
    different file names in one directory apart. *)
Theorem output_files_of_different_indices_differ (i j : nat) :
  i ≠ j →
  (∀ x y, padStart2 (String_of_nat (i + 1)) ++ "_" ++ x
          ≠ padStart2 (String_of_nat (j + 1)) ++ "_" ++ y) ∧
  (∀ env dir s1 s2,
     (∀ a b, path_join env dir a = path_join env dir b → a = b) →
     outputFilePath env dir i s1 ≠ outputFilePath env dir j s2).
Proof.
  intros Hne.
  assert (∀ x y, padStart2 (String_of_nat (i + 1)) ++ "_" ++ x
                 ≠ padStart2 (String_of_nat (j + 1)) ++ "_" ++ y) as Hnames.
  { intros x y Heq.
    destruct (padStart2_uint (i + 1)) as (di & Hi & Hvi & Hni).
    destruct (padStart2_uint (j + 1)) as (dj & Hj & Hvj & Hnj).
    assert (digits_value (NilEmpty.string_of_uint di ++ "_" ++ x) None
            = digits_value (NilEmpty.string_of_uint dj ++ "_" ++ y) None) as Hp
      by (rewrite <- Hi, <- Hj; by f_equal).
    rewrite !digits_uint in Hp by (try done; by intros c r [= <- _]).
    injection Hp as Hp. lia. }
  split; [done|].
  intros env dir s1 s2 Hinj Heq. unfold outputFilePath in Heq.
  apply Hinj in Heq. by apply Hnames in Heq.
Qed.

(** The first and the second sample of a module, both named ["kick"]. *)
Lemma output_files_of_different_indices_differ_witness :
  outputFilePath Stub.mem_env "out/demo" 0 (mkSampleInfo "kick" 1 0 DataMissing)
  ≠ outputFilePath Stub.mem_env "out/demo" 1 (mkSampleInfo "kick" 1 0 DataMissing).
Proof.
  destruct (output_files_of_different_indices_differ 0 1) as [_ Hpaths];
    [lia|].
  apply Hpaths. intros a b H. cbn in H. by injection H.
Defined.

Local Close Scope string_scope.

(* ===================================================================== *)
(** * Further properties of [processFile] and [main] *)
(* ===================================================================== *)

Section OrchestratorMore.
Context (env : NodeEnv) (xmpjs : Xmpjs) (lamejs : Lamejs).

(** X15. [main] calls [process.exit] in exactly two situations, both with
    status 1 and before anything is created: an input path or an output
    directory that is missing or empty on the command line (the two usage
    lines are printed), and an input path that does not exist (one error
    line).  In both the file system is left as it was. *)
Theorem main_exits_only_on_bad_arguments (argv : list string) (w : World env) :
  (∀ code, (main env xmpjs lamejs argv w).2 = Exited code →
           code = 1 ∧
           (main env xmpjs lamejs argv w).1.(w_fs) = w_fs w ∧
           (truthy (argv !! 2%nat) = None ∨ truthy (argv !! 3%nat) = None ∨
            ∃ inputPath, truthy (argv !! 2%nat) = Some inputPath ∧
                         existsSync env inputPath (w_fs w) = false)) ∧
  (truthy (argv !! 2%nat) = None ∨ truthy (argv !! 3%nat) = None →
   main env xmpjs lamejs argv w
   = (mkWorld (w_fs w) (w_console w ++ [ErrUsage; ErrUsageExample]), Exited 1)) ∧
  (∀ inputPath outputDir,
     truthy (argv !! 2%nat) = Some inputPath →
     truthy (argv !! 3%nat) = Some outputDir →
     existsSync env inputPath (w_fs w) = false →
     main env xmpjs lamejs argv w
     = (mkWorld (w_fs w) (w_console w ++ [ErrInputNotFound inputPath]), Exited 1)).
Proof.
  unfold main.
  destruct (truthy (argv !! 2%nat)) as [inputPath|] eqn:Hin;
    [destruct (truthy (argv !! 3%nat)) as [outputDir|] eqn:Hout|].
  - destruct (existsSync env inputPath (w_fs w)) eqn:Hex; cbn [negb].
    + split; [|split].
      * destruct (main_run env xmpjs lamejs inputPath outputDir _ w) as [w' [[]|e]];
          intros code Hcode; discriminate Hcode.
      * intros [H | H]; discriminate H.
      * intros ? ? [= <-] [= <-] H. rewrite Hex in H. discriminate H.
    + split; [|split].
      * intros code [= <-]. split; [done|]. split; [done|].
        right. right. by exists inputPath.
      * intros [H | H]; discriminate H.
      * by intros ? ? [= <-] [= <-] _.
  - split; [|split]; [|done|intros ? ? _ H; discriminate H].
    intros code [= <-]. split; [done|]. split; [done|]. right. by left.
  - split; [|split]; [| |intros ? ? H; discriminate H].
    + intros code [= <-]. split; [done|]. split; [done|]. by left.
    + by destruct (truthy (argv !! 3%nat)).
Qed.

(** X16. In the directory loop an entry that is not a regular file, or
    whose extension is not a tracker extension, is passed over without any
    effect; but an entry that [fs.statSync] refuses ends the loop at once
    with that error: the entries after it are not looked at. *)
Theorem directory_loop_skips_and_stat_errors_escape
    (inputPath outputDir : string) (rate : JSNumber)
    (file : string) (files : list string) (w : World env) :
  (∀ stats,
     statSync env (path_join env inputPath file) (w_fs w) = Ok stats →
     isFile stats
     && includes VALID_EXTENSIONS (toLowerCase (path_extname env file)) = false →
     forEach_file env xmpjs lamejs inputPath outputDir rate (file :: files) w
     = forEach_file env xmpjs lamejs inputPath outputDir rate files w) ∧
  (∀ e,
     statSync env (path_join env inputPath file) (w_fs w) = Throw e →
     forEach_file env xmpjs lamejs inputPath outputDir rate (file :: files) w
     = (w, Throw e)).
Proof.
  split.
  - intros stats Hstat Hno. cbn [forEach_file]. cbv zeta.
    unfold mbind at 1, M_bind. unfold fs_read at 1. rewrite Hstat, Hno.
    unfold mbind at 1, M_bind. done.
  - intros e Hstat. cbn [forEach_file]. cbv zeta.
    unfold mbind at 1, M_bind. unfold fs_read at 1. by rewrite Hstat.
Qed.

(** X17. The creation of a module's output directory is not guarded: when
    [fs.mkdirSync] throws, [processFile] throws that error itself, having
    printed only its first line and processed no sample, and the directory
    loop of [main] passes the error on instead of going to the next file. *)
Theorem mkdir_failure_escapes_processFile
    (filePath outputDir : string) (rate : JSNumber) (w w1 : World env)
    (moduleData_name : string) (sample0 : SampleInfo) (more : list SampleInfo)
    (fs1 : FS env) (e : JsError) :
  load_module env xmpjs filePath
    (mkWorld (w_fs w) (w_console w ++ [LogProcessing filePath]))
  = (w1, Ok (Some (mkModuleData moduleData_name (Some (sample0 :: more))))) →
  mkdirSync_recursive env
    (moduleOutputDir env filePath outputDir moduleData_name) (w_fs w)
  = (fs1, Throw e) →
  processFile env xmpjs lamejs filePath outputDir rate w
  = (mkWorld fs1 (w_console w ++ [LogProcessing filePath]), Throw e) ∧
  ∀ inputPath file files stats,
    filePath = path_join env inputPath file →
    statSync env filePath (w_fs w) = Ok stats →
    isFile stats
    && includes VALID_EXTENSIONS (toLowerCase (path_extname env file)) = true →
    forEach_file env xmpjs lamejs inputPath outputDir rate (file :: files) w
    = (mkWorld fs1 (w_console w ++ [LogProcessing filePath]), Throw e).
Proof.
  intros Hload Hmkdir.
  apply load_module_world in Hload as Hw. subst w1.
  assert (processFile env xmpjs lamejs filePath outputDir rate w
          = (mkWorld fs1 (w_console w ++ [LogProcessing filePath]), Throw e))
    as Hfile.
  { unfold processFile. unfold_M. cbn [w_fs w_console]. rewrite Hload.
    fold (moduleOutputDir env filePath outputDir moduleData_name).
    cbn [w_fs w_console]. by rewrite Hmkdir. }
  split; [done|].
  intros inputPath file files stats -> Hstat Hvalid.
  cbn [forEach_file]. cbv zeta.
  unfold mbind at 1, M_bind. unfold fs_read at 1. rewrite Hstat, Hvalid.
  unfold mbind at 1, M_bind. by rewrite Hfile.
Qed.

(** X18. A sample that is not skipped and whose three steps succeed is
    written once, to its own path in the module directory, with exactly
    the bytes [encodeToMp3] returned for the normalised PCM; nothing is
    printed and the counter goes up by one. *)
Theorem successful_sample_is_written_once
    (dir : string) (rate : JSNumber) (i : nat) (s : SampleInfo) (cnt : nat)
    (w : World env) (pcm : Int16Array) (mp3 : list byte) (fs' : FS env) :
  (len s <=? 0)%Z || data_missing_or_empty (data s) = false →
  normalizeToPcm16 s = Ok pcm →
  encodeToMp3 lamejs pcm rate = Ok mp3 →
  writeFileSync env (outputFilePath env dir i s) mp3 (w_fs w) = (fs', Ok ()) →
  processFile_sample env lamejs dir rate i s cnt w
  = (mkWorld fs' (w_console w), Ok (cnt + 1)%nat).
Proof.
  intros Hskip Hn He Hw. unfold processFile_sample. rewrite Hskip. unfold_M.
  rewrite Hn, He. unfold outputFilePath, sampleNameRaw in Hw. by rewrite Hw.
Qed.

(** X19. The sample loop accounts for every sample exactly once: it never
    throws, it only appends sample-failure lines to the console, and the
    number of samples extracted plus the number of failure lines is the
    number of samples that were not skipped.  So the count in the summary
    never exceeds the number of samples. *)
Theorem sample_loop_accounts_for_every_sample
    (dir : string) (rate : JSNumber) (rest : list SampleInfo) :
  ∀ (i cnt : nat) (w : World env),
  ∃ w' cnt' lines,
    processFile_loop env lamejs dir rate i rest cnt w = (w', Ok cnt') ∧
    w_console w' = w_console w ++ lines ∧
    Forall (λ line, ∃ j nm msg, line = ErrSampleFailed j nm msg) lines ∧
    (cnt <= cnt')%nat ∧
    ((cnt' - cnt) + length lines
     = length (filter (λ s, (len s <=? 0)%Z || data_missing_or_empty (data s)
                            = false) rest))%nat ∧
    (cnt' <= cnt + length rest)%nat.
Proof.
  induction rest as [|s rest IH]; intros i cnt w.
  - exists w, cnt, []. cbn. rewrite app_nil_r. repeat split; try done; lia.
  - assert (∃ w1 cnt1 lines1,
              processFile_sample env lamejs dir rate i s cnt w = (w1, Ok cnt1) ∧
              w_console w1 = w_console w ++ lines1 ∧
              Forall (λ line, ∃ j nm msg, line = ErrSampleFailed j nm msg) lines1 ∧
              (cnt <= cnt1)%nat ∧
              ((cnt1 - cnt) + length lines1
               = if (len s <=? 0)%Z || data_missing_or_empty (data s)
                 then 0 else 1)%nat) as (w1 & cnt1 & lines1 & Hs & Hc1 & Hl1 & Hle1 & Hn1).
    { unfold processFile_sample.
      destruct ((len s <=? 0)%Z || data_missing_or_empty (data s)).
      - exists w, cnt, []. rewrite app_nil_r. repeat split; try done. cbn. lia.
      - unfold_M.
        destruct (normalizeToPcm16 s) as [pcm|e].
        2:{ eexists _, cnt, [_]. repeat split; try done; [|cbn; lia].
            repeat constructor. by eexists _, _, _. }
        destruct (encodeToMp3 lamejs pcm rate) as [mp3|e].
        2:{ eexists _, cnt, [_]. repeat split; try done; [|cbn; lia].
            repeat constructor. by eexists _, _, _. }
        destruct (writeFileSync env _ mp3 (w_fs w)) as [fs' [[]|e]].
        + eexists _, (cnt + 1)%nat, []. cbn [w_console]. rewrite app_nil_r.
          repeat split; try done; cbn; lia.
        + eexists _, cnt, [_]. repeat split; try done; [|cbn; lia].
          repeat constructor. by eexists _, _, _. }
    destruct (IH (i + 1)%nat cnt1 w1)
      as (w' & cnt' & lines & Hloop & Hc & Hl & Hle & Hn & Hub).
    exists w', cnt', (lines1 ++ lines).
    split.
    { cbn [processFile_loop]. unfold mbind at 1, M_bind. by rewrite Hs. }
    split; [by rewrite Hc, Hc1, app_assoc|].
    split; [by apply Forall_app|].
    split; [lia|].
    rewrite filter_cons, length_app. cbn [length].
    destruct (decide ((len s <=? 0)%Z || data_missing_or_empty (data s) = false))
      as [Hd|Hd].
    + rewrite Hd in Hn1. cbn [length]. lia.
    + apply not_false_is_true in Hd. rewrite Hd in Hn1. lia.
Qed.
End OrchestratorMore.

Local Open Scope string_scope.

(** No output directory on the command line; and an input path that is
    not on the disk. *)
Lemma main_exits_only_on_bad_arguments_witness :
  main Stub.mem_env Stub.toy_xmpjs Stub.marker_lamejs
       ["node"; "extract.js"; "music"] Stub.world0
  = (mkWorld (w_fs Stub.world0) [ErrUsage; ErrUsageExample], Exited 1) ∧
  main Stub.mem_env Stub.toy_xmpjs Stub.marker_lamejs
       ["node"; "extract.js"; "nothing"; "out"] Stub.world0
  = (mkWorld (w_fs Stub.world0) [ErrInputNotFound "nothing"], Exited 1).
Proof.
  split.
  - destruct (main_exits_only_on_bad_arguments Stub.mem_env Stub.toy_xmpjs
                Stub.marker_lamejs ["node"; "extract.js"; "music"] Stub.world0)
      as (_ & Husage & _).
    apply Husage. right. reflexivity.
  - destruct (main_exits_only_on_bad_arguments Stub.mem_env Stub.toy_xmpjs
                Stub.marker_lamejs ["node"; "extract.js"; "nothing"; "out"]
                Stub.world0) as (_ & _ & Hmissing).
    apply (Hmissing "nothing" "out"); reflexivity.
Defined.

(** A text file in a directory is passed over; an entry that does not
    exist makes [statSync] throw. *)
Lemma directory_loop_skips_and_stat_errors_escape_witness :
  forEach_file Stub.mem_env Stub.toy_xmpjs Stub.marker_lamejs "docs" "out"
               (Num 22050) ["readme.txt"; "b.txt"]
               (mkWorld (Stub.mkMemFS ["docs"] [("docs/readme.txt", [x68])]
                         : FS Stub.mem_env) [])
  = forEach_file Stub.mem_env Stub.toy_xmpjs Stub.marker_lamejs "docs" "out"
                 (Num 22050) ["b.txt"]
                 (mkWorld (Stub.mkMemFS ["docs"] [("docs/readme.txt", [x68])]
                           : FS Stub.mem_env) []) ∧
  forEach_file Stub.mem_env Stub.toy_xmpjs Stub.marker_lamejs "music" "out"
               (Num 22050) ["ghost.mod"; "a.mod"] Stub.world0
  = (Stub.world0, Throw (Error "ENOENT")).
Proof.
  split.
  - destruct (directory_loop_skips_and_stat_errors_escape Stub.mem_env
                Stub.toy_xmpjs Stub.marker_lamejs "docs" "out" (Num 22050)
                "readme.txt" ["b.txt"]
                (mkWorld (Stub.mkMemFS ["docs"] [("docs/readme.txt", [x68])]
                          : FS Stub.mem_env) [])) as [Hskip _].
    apply (Hskip (mkStats false true)); reflexivity.
  - destruct (directory_loop_skips_and_stat_errors_escape Stub.mem_env
                Stub.toy_xmpjs Stub.marker_lamejs "music" "out" (Num 22050)
                "ghost.mod" ["a.mod"] Stub.world0) as [_ Hthrow].
    apply Hthrow. reflexivity.
Defined.

(** On the read-only disk the good module cannot get its directory. *)
Lemma mkdir_failure_escapes_processFile_witness :
  processFile ReadOnly.env Stub.toy_xmpjs Stub.marker_lamejs
              "music/a.mod" "out" (Num 22050) ReadOnly.world0
  = (mkWorld (w_fs ReadOnly.world0) [LogProcessing "music/a.mod"],
     Throw (Error "EROFS: read-only file system")) ∧
  forEach_file ReadOnly.env Stub.toy_xmpjs Stub.marker_lamejs "music" "out"
               (Num 22050) ["a.mod"; "b.it"] ReadOnly.world0
  = (mkWorld (w_fs ReadOnly.world0) [LogProcessing "music/a.mod"],
     Throw (Error "EROFS: read-only file system")).
Proof.
  destruct (mkdir_failure_escapes_processFile ReadOnly.env Stub.toy_xmpjs
              Stub.marker_lamejs "music/a.mod" "out" (Num 22050)
              ReadOnly.world0
              (mkWorld (w_fs ReadOnly.world0) [LogProcessing "music/a.mod"])
              "demo" Stub.sample_8bit [Stub.sample_empty]
              (w_fs ReadOnly.world0) (Error "EROFS: read-only file system")
              eq_refl eq_refl) as [Hfile Hloop].
  split; [exact Hfile|].
  apply (Hloop "music" "a.mod" ["b.it"] (mkStats false true)); reflexivity.
Defined.

(** The 8-bit sample of the demo module, with the marker encoder. *)
Lemma successful_sample_is_written_once_witness :
  processFile_sample Stub.mem_env Stub.marker_lamejs "out/demo" (Num 22050)
                     0 Stub.sample_8bit 0 Stub.world0
  = (mkWorld (Stub.mkMemFS (Stub.mem_dirs Stub.disk)
                (Stub.mem_files Stub.disk
                 ++ [("out/demo/01_lead.mp3", [x00; x03; x00; xff])])%list
              : FS Stub.mem_env) [],
     Ok (0 + 1)%nat).
Proof.
  apply (successful_sample_is_written_once Stub.mem_env Stub.marker_lamejs
           "out/demo" (Num 22050) 0 Stub.sample_8bit 0 Stub.world0
           (mkInt16Array [x00; x80; x00; x00; x00; x7f] 0 3)
           [x00; x03; x00; xff]).
  - reflexivity.
  - reflexivity.
  - reflexivity.
  - reflexivity.
Defined.

Local Close Scope string_scope.

Lemma sanitize_empty s : sanitize s = EmptyString ↔ s = EmptyString.
Proof. by destruct s. Qed.

(** X20. A module's output directory is named after the sanitised,
    trimmed module name; only a name that is empty or all white space
    falls back to the input file's base name without its extension.  A
    name made of symbols only does not fall back: it becomes a run of
    underscores. *)
Theorem module_directory_falls_back_only_when_blank
    (env : NodeEnv) (filePath outputDir moduleData_name : string) :
  (Forall (λ c, is_white_space c = true) (list_ascii_of_string moduleData_name) →
   moduleOutputDir env filePath outputDir moduleData_name
   = path_join env outputDir
       (path_basename env filePath (path_extname env filePath))) ∧
  (¬ Forall (λ c, is_white_space c = true) (list_ascii_of_string moduleData_name) →
   sanitize (trim moduleData_name) ≠ EmptyString ∧
   moduleOutputDir env filePath outputDir moduleData_name
   = path_join env outputDir (sanitize (trim moduleData_name))).
Proof.
  unfold moduleOutputDir, or_else, or_default.
  destruct (sanitize (trim moduleData_name)) as [|c r] eqn:E.
  - apply sanitize_empty, trim_empty in E. split; [done|]. intros H. by destruct H.
  - split; [|done]. intros H. apply trim_empty in H. rewrite H in E. discriminate E.
Qed.

(** A blank module name in ["music/a.mod"], and the name ["#!"]. *)
Lemma module_directory_falls_back_only_when_blank_witness :
  moduleOutputDir Stub.mem_env "music/a.mod" "out" " "%string = "out/a"%string ∧
  moduleOutputDir Stub.mem_env "music/a.mod" "out" "#!"%string = "out/__"%string.
Proof.
  split.
  - destruct (module_directory_falls_back_only_when_blank Stub.mem_env
                "music/a.mod" "out" " ") as [Hblank _].
    rewrite Hblank; [reflexivity|]. repeat constructor.
  - destruct (module_directory_falls_back_only_when_blank Stub.mem_env
                "music/a.mod" "out" "#!") as [_ Hnamed].
    destruct Hnamed as [_ ->]; [|reflexivity].
    intros H. apply Forall_cons in H as [H _]. discriminate H.
Defined.
